(** * SOC report viewer: a model of the React components and their properties

    The development follows the source tree of [my-soc-report-app]:
    - [components/ui/accordion.tsx]  ->  [Module Accordion]
    - [components/ui/card.tsx]       ->  [Module CardUi]
    - [components/ReportViewer.tsx]  ->  [Module Viewer]
    - [App.tsx]                      ->  [Module Shell]

    A component is a function from the ambient context to the nodes it
    renders, or to the error it throws.  Hook state ([useState]) is threaded
    explicitly: the viewer's [reports] and [index], and one open flag per
    mounted [AccordionItem] instance.  Styling ([className]) and list keys
    are not observable by any property below and are left out. *)

From stdpp Require Import base option list strings gmap pretty.
From Stdlib Require Import ZArith Lia.

#[local] Set Warnings "-register-all".

(** ** JavaScript values, as far as the fetched JSON document produces them *)

(** [Undefined] is what a read of a missing property yields; JSON itself never
    contains it.  Numbers are modelled by integer values (page numbers and the
    like); fractional numbers play no part in what follows. *)
Inductive value : Type :=
| Undefined
| Null
| Bool (b : bool)
| Num (n : Z)
| Str (s : string)
| Arr (items : list value)
| Obj (fields : list (string * value)).

(** [!v] is [negb (truthy v)]. *)
Definition truthy (v : value) : bool :=
  match v with
  | Undefined | Null => false
  | Bool b => b
  | Num n => negb (n =? 0)%Z
  | Str s => negb (String.eqb s "")
  | Arr _ | Obj _ => true
  end.

Definition nullish (v : value) : bool :=
  match v with
  | Undefined | Null => true
  | _ => false
  end.

(** ** Exceptions *)

Inductive error : Type :=
| TypeError                      (* property read on null/undefined, call of a non-function *)
| InvalidChild                   (* React: objects are not valid as a React child *)
| Error (msg : string).          (* [throw new Error(msg)] *)

Inductive res (A : Type) : Type :=
| Ok (a : A)
| Throw (e : error).
Arguments Ok {A} a.
Arguments Throw {A} e.

#[global] Instance res_ret : MRet res := @Ok.
#[global] Instance res_bind : MBind res :=
  λ A B f m, match m with Ok a => f a | Throw e => Throw e end.

Definition is_ok {A} (r : res A) : bool :=
  match r with Ok _ => true | Throw _ => false end.

(** ** Property reads and array indexing *)

(** Own property of a parsed JSON object. *)
Fixpoint own (fields : list (string * value)) (name : string) : value :=
  match fields with
  | [] => Undefined
  | (k, v) :: rest => if String.eqb k name then v else own rest name
  end.

(** [o.name], for the property names the viewer reads: none of them is a
    member of a built-in prototype, so a read on a non-object yields
    [undefined], and a read on [null] or [undefined] throws. *)
Definition get (o : value) (name : string) : res value :=
  match o with
  | Undefined | Null => Throw TypeError
  | Obj fields => Ok (own fields name)
  | Bool _ | Num _ | Str _ | Arr _ => Ok Undefined
  end.

(** [reports[index]]: [undefined] outside the array. *)
Definition at_index (l : list value) (i : Z) : value :=
  if (0 <=? i)%Z then default Undefined (l !! Z.to_nat i) else Undefined.

(** ** Rendered output *)

(** The handlers a control can carry in its [onClick]. *)
Inductive action : Type :=
| HandlePrev
| HandleNext
| Toggle (k : nat).            (* the [toggle] of the [AccordionItem] instance in slot [k] *)

#[global] Instance action_eq_dec : EqDecision action.
Proof. solve_decision. Defined.

Inductive node : Type :=
| Text (s : string)
| Elem (tag : string) (disabled : bool) (onClick : option action) (kids : list node).

(** Number of elements with a given tag in a rendered forest. *)
Fixpoint count_tag (t : string) (n : node) : nat :=
  match n with
  | Text _ => 0
  | Elem tag _ _ kids =>
      (if String.eqb tag t then 1 else 0)
      + (fix go (l : list node) : nat :=
           match l with [] => 0 | x :: r => count_tag t x + go r end) kids
  end.

Definition count_tags (t : string) (ns : list node) : nat :=
  foldr (λ n acc, count_tag t n + acc) 0 ns.

(** The [disabled] flag of the first control that carries handler [a]. *)
Fixpoint find_control (a : action) (n : node) : option bool :=
  match n with
  | Text _ => None
  | Elem _ dis h kids =>
      if decide (h = Some a) then Some dis
      else (fix go (l : list node) : option bool :=
              match l with
              | [] => None
              | x :: r => match find_control a x with Some d => Some d | None => go r end
              end) kids
  end.

Fixpoint find_controls (a : action) (ns : list node) : option bool :=
  match ns with
  | [] => None
  | x :: r => match find_control a x with Some d => Some d | None => find_controls a r end
  end.

(** A user can activate [a] when an enabled control carrying it is on screen. *)
Definition clickable (a : action) (view : res (list node)) : bool :=
  match view with
  | Ok ns => bool_decide (find_controls a ns = Some false)
  | Throw _ => false
  end.

(** Children of the first element with a given tag. *)
Fixpoint find_tag (t : string) (n : node) : option (list node) :=
  match n with
  | Text _ => None
  | Elem tag _ _ kids =>
      if String.eqb tag t then Some kids
      else (fix go (l : list node) : option (list node) :=
              match l with
              | [] => None
              | x :: r => match find_tag t x with Some k => Some k | None => go r end
              end) kids
  end.

Fixpoint find_tags (t : string) (ns : list node) : option (list node) :=
  match ns with
  | [] => None
  | x :: r => match find_tag t x with Some k => Some k | None => find_tags t r end
  end.

(** A rendered node that carries no handler anywhere. *)
Fixpoint no_handlers (n : node) : bool :=
  match n with
  | Text _ => true
  | Elem _ _ h kids => bool_decide (h = None) && forallb no_handlers kids
  end.

(** ** Elements *)

(** The value [AccordionItemContext] carries. *)
Record item_ctx : Type := { open : bool; toggle : action }.

(** An element, once rendered under a context, yields nodes or throws. *)
Definition elem : Type := option item_ctx → res (list node).

(** A JavaScript value in child position: strings and numbers become text,
    booleans, [null] and [undefined] render nothing, arrays render their
    members in order, plain objects are rejected by React. *)
Fixpoint render_child (v : value) : res (list node) :=
  match v with
  | Undefined | Null | Bool _ => Ok []
  | Num n => Ok [Text (pretty n)]
  | Str s => Ok [Text s]
  | Arr items =>
      (fix go (l : list value) : res (list node) :=
         match l with
         | [] => Ok []
         | x :: r => ns ← render_child x; ms ← go r; Ok (ns ++ ms)
         end) items
  | Obj _ => Throw InvalidChild
  end.

Definition child (v : value) : elem := λ _, render_child v.
Definition text (s : string) : elem := λ _, Ok [Text s].

(** The children of one parent, rendered in order.  React, while it
    reconciles the children of an element, rejects a plain object among them
    before it calls any of the sibling components; rendering in order reports
    the same failure except where a sibling component throws an error of its
    own next to a plain-object child, and then it is only the error reported
    that differs.  Nothing below is stated of which error is reported there. *)
Fixpoint render_all (ctx : option item_ctx) (es : list elem) : res (list node) :=
  match es with
  | [] => Ok []
  | e :: r => ns ← e ctx; ms ← render_all ctx r; Ok (ns ++ ms)
  end.

(** A host element ([div], [button], [ul], ...). *)
Definition host (tag : string) (disabled : bool) (onClick : option action)
    (children : list elem) : elem :=
  λ ctx, kids ← render_all ctx children; Ok [Elem tag disabled onClick kids].

Definition el (tag : string) (children : list elem) : elem :=
  host tag false None children.

(** Rendering at the root: no [AccordionItemContext] is provided there. *)
Definition render (e : res elem) : res (list node) := f ← e; f None.

(** Three properties of elements used below: a [tame] element renders no
    handler, a [safe] element renders under every context, and an element that
    [toggles_only k] renders exactly one control, enabled, carrying
    [Toggle k]. *)
Definition tame (e : elem) : Prop :=
  ∀ ctx ns, e ctx = Ok ns → forallb no_handlers ns = true.

Definition safe (e : elem) : Prop :=
  ∀ ctx, ∃ ns, e ctx = Ok ns.

Definition toggles_only (k : nat) (e : elem) : Prop :=
  ∀ ctx ns a, e ctx = Ok ns →
    find_controls a ns = if decide (a = Toggle k) then Some false else None.

(** ** accordion.tsx *)
Module Accordion.

(** One open flag per mounted [AccordionItem] instance, by slot. *)
Abbreviation store := (gmap nat bool).

(** [useState(false)]. *)
Definition initial_open : bool := false.

(** The updater [(prev) => !prev] that [toggle] hands to [setOpen]. *)
Definition flip (prev : bool) : bool := negb prev.

Definition mount_item (k : nat) (σ : store) : store := <[k := initial_open]> σ.

(** [toggle] of instance [k]; a state update on an instance that is not
    mounted does nothing. *)
Definition toggle_item (k : nat) (σ : store) : store := alter flip k σ.

(** The flag instance [k] renders with: its state, or the initial state on
    its first render. *)
Definition item_open (σ : store) (k : nat) : bool := default initial_open (σ !! k).

Definition Accordion (children : list elem) : elem := el "div" children.

(** The component does not read its [value] prop; what tells two instances
    apart is their position in the tree, here the slot [k] under which the
    instance keeps its flag.  The provider replaces whatever context the
    instance itself was rendered under. *)
Definition AccordionItem (σ : store) (k : nat) (children : list elem) : elem :=
  λ _, el "div" children (Some {| open := item_open σ k; toggle := Toggle k |}).

Definition AccordionTrigger (children : list elem) : elem :=
  λ context,
    match context with
    | None => Throw (Error "AccordionTrigger must be used within an AccordionItem")
    | Some c =>
        host "button" false (Some (toggle c))
          [el "span" children; el "span" [text (if open c then "−" else "+")]] context
    end.

Definition AccordionContent (children : list elem) : elem :=
  λ context,
    match context with
    | None => Throw (Error "AccordionContent must be used within an AccordionItem")
    | Some c => if open c then el "div" children context else Ok []
    end.

(** What an [AccordionItem] holding a trigger and a content region renders:
    the trigger alone when closed, the trigger and the content when open. *)
Definition trigger_node (k : nat) (label : list node) (sign : string) : node :=
  Elem "button" false (Some (Toggle k))
    [Elem "span" false None label; Elem "span" false None [Text sign]].

End Accordion.

(** ** card.tsx *)
Module CardUi.
Definition Card (children : list elem) : elem := el "div" children.
Definition CardContent (children : list elem) : elem := el "div" children.
End CardUi.

(** ** ReportViewer.tsx *)
Module Viewer.
Import Accordion CardUi.

(** [v?.map(f)]: [undefined] (which renders nothing) when [v] is [null] or
    [undefined], the mapped array when [v] is an array; any other value has
    no [map] method and the call throws.  The callback may itself throw. *)
Fixpoint map_items (f : value → res elem) (items : list value) : res (list elem) :=
  match items with
  | [] => Ok []
  | x :: r => e ← f x; es ← map_items f r; Ok (e :: es)
  end.

Definition optional_map (v : value) (f : value → res elem) : res (list elem) :=
  match v with
  | Undefined | Null => Ok []
  | Arr items => map_items f items
  | Bool _ | Num _ | Str _ | Obj _ => Throw TypeError
  end.

(** [Math.max(prev - 1, 0)] and [Math.min(prev + 1, reports.length - 1)]. *)
Definition handlePrev (prev : Z) : Z := Z.max (prev - 1) 0.
Definition handleNext (reports : list value) (prev : Z) : Z :=
  Z.min (prev + 1) (Z.of_nat (length reports) - 1).

(** [disabled={index === 0}] and [disabled={index === reports.length - 1}]. *)
Definition prev_disabled (index : Z) : bool := (index =? 0)%Z.
Definition next_disabled (reports : list value) (index : Z) : bool :=
  (index =? Z.of_nat (length reports) - 1)%Z.

Definition nav_buttons (reports : list value) (index : Z) : elem :=
  el "div"
    [ host "button" (prev_disabled index) (Some HandlePrev) [text "Previous"];
      host "button" (next_disabled reports index) (Some HandleNext) [text "Next"] ].

Definition page_header (reports : list value) (index : Z) (report : value) : res elem :=
  file_name ← get report "file_name";
  Ok (el "div" [el "h1" [child file_name]; nav_buttons reports index]).

Definition summary_line (label : string) (v : value) : elem :=
  el "p" [el "strong" [text label]; text " "; child v].

Definition page_summary (report : value) : res elem :=
  auditor ← get report "ServiceAuditor";
  type ← get report "SOC1ReportType";
  period ← get report "ReportPeriod";
  date ← get report "AuditorOpinionDate";
  Ok (Card
        [CardContent
           [ summary_line "Auditor:" auditor;
             summary_line "Report Type:" type;
             summary_line "Period:" period;
             summary_line "Opinion Date:" date ]]).

(** The callbacks handed to [map], one per section. *)
Definition li_strong (s : value) : res elem :=
  Ok (el "li" [el "strong" [child s]]).

Definition li_plain (s : value) : res elem :=
  Ok (el "li" [child s]).

Definition li_pair (key val : string) (s : value) : res elem :=
  k ← get s key;
  v ← get s val;
  Ok (el "li" [el "strong" [child k; text ":"]; text " "; child v]).

Definition li_report (r : value) : res elem :=
  name ← get r "report_name";
  page ← get r "source_page";
  control ← get r "source_control";
  Ok (el "li"
        [ el "strong" [child name]; text " (Page "; child page;
          text ", Control: "; child control; text ")" ]).

(** An [AccordionItem] whose content is a [ul] over an optional collection. *)
Definition list_section (σ : store) (k : nat) (title field : string)
    (item : value → res elem) (report : value) : res elem :=
  v ← get report field;
  items ← optional_map v item;
  Ok (AccordionItem σ k
        [AccordionTrigger [text title]; AccordionContent [el "ul" items]]).

Definition section_AuditorsOpinion (σ : store) (report : value) : res elem :=
  opinion ← get report "AuditorOpinionType";
  Ok (AccordionItem σ 0
        [ AccordionTrigger [text "Auditor's Opinion"];
          AccordionContent [el "ul" [child opinion]] ]).

Definition section_ThirdPartyServiceProvider σ :=
  list_section σ 1 "Third Party Service Providers" "ThirdPartyServiceProvider" li_strong.
Definition section_subservice σ :=
  list_section σ 2 "Subservice Providers" "SubserviceProvider" li_plain.
Definition section_services σ :=
  list_section σ 3 "Services Provided" "ServicesProvided" (li_pair "service" "description").
Definition section_control_numbers σ :=
  list_section σ 4 "Control Numbers" "ControlNumber" li_strong.
Definition section_control_objectives σ :=
  list_section σ 5 "Control Objectives" "ControlObjective" (li_pair "id" "objective").
Definition section_control_descriptions σ :=
  list_section σ 6 "Control Descriptions" "ControlDescription" (li_pair "number" "description").
Definition section_reports_inscope σ :=
  list_section σ 7 "Reports In Scope" "ReportsInScope" li_report.

Definition section_control_exception (σ : store) (report : value) : res elem :=
  exception ← get report "ControlExceptionIdentified";
  Ok (AccordionItem σ 8
        [ AccordionTrigger [text "Control Exception Identified"];
          AccordionContent [el "p" [child exception]] ]).

Definition section_cuecs σ :=
  list_section σ 9 "CUECs" "CUECDescription" (li_pair "number" "description").

(** The ten sections, in the order of the source. *)
Definition sections (σ : store) : list (value → res elem) :=
  [ section_AuditorsOpinion σ; section_ThirdPartyServiceProvider σ;
    section_subservice σ; section_services σ; section_control_numbers σ;
    section_control_objectives σ; section_control_descriptions σ;
    section_reports_inscope σ; section_control_exception σ; section_cuecs σ ].

Fixpoint build_sections (fs : list (value → res elem)) (report : value) : res (list elem) :=
  match fs with
  | [] => Ok []
  | f :: r => e ← f report; es ← build_sections r report; Ok (e :: es)
  end.

Definition loading : elem := el "p" [text "Loading..."].

(** The body of the component: the element it returns for the current
    [reports], [index] and accordion state. *)
Definition ReportViewer (reports : list value) (index : Z) (σ : store) : res elem :=
  let report := at_index reports index in
  if negb (truthy report) then Ok loading
  else
    header ← page_header reports index report;
    summary ← page_summary report;
    items ← build_sections (sections σ) report;
    Ok (el "div" [header; summary; Accordion items]).

(** *** The controls of the page

    [accordion_controls lo n a] is the [disabled] flag under which a run of [n]
    accordion items, in slots [lo .. lo + n - 1], offers handler [a];
    [page_controls] is the same for the whole record page. *)
Definition accordion_controls (lo n : nat) (a : action) : option bool :=
  match a with
  | Toggle j => if bool_decide (lo ≤ j < lo + n) then Some false else None
  | HandlePrev | HandleNext => None
  end.

Definition page_controls (reports : list value) (index : Z) (a : action) : option bool :=
  match a with
  | HandlePrev => Some (prev_disabled index)
  | HandleNext => Some (next_disabled reports index)
  | Toggle _ => accordion_controls 0 10 a
  end.

(** The nodes of the navigation block and of the loading placeholder. *)
Definition nav_nodes (reports : list value) (index : Z) : node :=
  Elem "div" false None
    [ Elem "button" (prev_disabled index) (Some HandlePrev) [Text "Previous"];
      Elem "button" (next_disabled reports index) (Some HandleNext) [Text "Next"] ].

Definition loading_nodes : list node := [Elem "p" false None [Text "Loading..."]].

(** *** Navigation as a sequence of operations *)

Inductive nav : Type := Previous | Next.

Definition navigate (reports : list value) (index : Z) (op : nav) : Z :=
  match op with
  | Previous => handlePrev index
  | Next => handleNext reports index
  end.

(** *** Records the page can render

    The fetched document is not validated.  [well_shaped] describes the
    records on which no read and no child can throw, whichever sections are
    open: every field is optional; a scalar field holds text, a number or
    nothing (no plain object); a collection field is missing, [null], or an
    array whose members can be read ([null] members only where the member
    itself is the child) and hold such scalars.  Every record of the
    documented shape (strings, sequences of strings, sequences of small
    objects of strings) is of this kind. *)

Fixpoint renderable (v : value) : bool :=
  match v with
  | Obj _ => false
  | Arr items => forallb renderable items
  | Undefined | Null | Bool _ | Num _ | Str _ => true
  end.

(** The value of [r.name] when the read does not throw. *)
Definition field (r : value) (name : string) : value :=
  match get r name with Ok v => v | Throw _ => Undefined end.

Definition keyed_ok (keys : list string) (s : value) : bool :=
  negb (nullish s) && forallb (λ k, renderable (field s k)) keys.

Definition collection_ok (item_ok : value → bool) (v : value) : bool :=
  match v with
  | Undefined | Null => true
  | Arr items => forallb item_ok items
  | Bool _ | Num _ | Str _ | Obj _ => false
  end.

Definition scalar_fields : list string :=
  [ "file_name"; "ServiceAuditor"; "SOC1ReportType"; "ReportPeriod";
    "AuditorOpinionDate"; "AuditorOpinionType"; "ControlExceptionIdentified" ].

Definition well_shaped (r : value) : bool :=
  truthy r
  && forallb (λ f, renderable (field r f)) scalar_fields
  && collection_ok renderable (field r "ThirdPartyServiceProvider")
  && collection_ok renderable (field r "SubserviceProvider")
  && collection_ok (keyed_ok ["service"; "description"]) (field r "ServicesProvided")
  && collection_ok renderable (field r "ControlNumber")
  && collection_ok (keyed_ok ["id"; "objective"]) (field r "ControlObjective")
  && collection_ok (keyed_ok ["number"; "description"]) (field r "ControlDescription")
  && collection_ok (keyed_ok ["report_name"; "source_page"; "source_control"])
       (field r "ReportsInScope")
  && collection_ok (keyed_ok ["number"; "description"]) (field r "CUECDescription").

(** The record [Obj fields] with property [name] removed. *)
Definition without (name : string) (fields : list (string * value)) : list (string * value) :=
  filter (λ kv, kv.1 ≠ name) fields.

(** The sections over an optional collection, with the field each one lists
    and the slot of its accordion item. *)
Definition collection_sections (σ : store) : list (string * nat * (value → res elem)) :=
  [ ("ThirdPartyServiceProvider", 1, section_ThirdPartyServiceProvider σ);
    ("SubserviceProvider", 2, section_subservice σ);
    ("ServicesProvided", 3, section_services σ);
    ("ControlNumber", 4, section_control_numbers σ);
    ("ControlObjective", 5, section_control_objectives σ);
    ("ControlDescription", 6, section_control_descriptions σ);
    ("ReportsInScope", 7, section_reports_inscope σ);
    ("CUECDescription", 9, section_cuecs σ) ].

End Viewer.

(** ** The running application *)

(** React re-renders after every state change; events are handled one at a
    time.  A world is the state the hooks hold, together with the outstanding
    fetch and the console. *)
Module Runtime.
Import Accordion Viewer.

Record world : Type := World {
  reports : list value;              (* [useState<any[]>([])] *)
  index : Z;                         (* [useState(0)] *)
  opens : gmap nat bool;             (* the [AccordionItem] instances on screen *)
  pending : bool;                    (* the fetch has not settled yet *)
  fetches : nat;                     (* requests issued so far *)
  console : list (string * string)   (* [console.error] lines *)
}.

(** First mount: empty array, index 0, and the effect issues the one fetch. *)
Definition mount : world :=
  {| reports := []; index := 0; opens := ∅; pending := true; fetches := 1; console := [] |}.

Definition view (w : world) : res (list node) :=
  render (ReportViewer (reports w) (index w) (opens w)).

(** The record page (and with it the ten accordion items) is on screen when
    the early return is not taken. *)
Definition page_shown (w : world) : bool := truthy (at_index (reports w) (index w)).

(** The [AccordionItem] slots of the page, in source order. *)
Definition slots : list nat := seq 0 10.
Definition mount_items : store := foldr mount_item ∅ slots.

Definition set_reports (data : list value) (w : world) : world :=
  {| reports := data; index := index w; opens := opens w; pending := pending w;
     fetches := fetches w; console := console w |}.
Definition set_index (i : Z) (w : world) : world :=
  {| reports := reports w; index := i; opens := opens w; pending := pending w;
     fetches := fetches w; console := console w |}.
Definition set_opens (σ : store) (w : world) : world :=
  {| reports := reports w; index := index w; opens := σ; pending := pending w;
     fetches := fetches w; console := console w |}.
Definition settle (w : world) : world :=
  {| reports := reports w; index := index w; opens := opens w; pending := false;
     fetches := fetches w; console := console w |}.
Definition console_error (msg err : string) (w : world) : world :=
  {| reports := reports w; index := index w; opens := opens w; pending := pending w;
     fetches := fetches w; console := console w ++ [(msg, err)] |}.

(** After a state change the page is rendered again: instances that stay on
    screen keep their state, instances that appear start from their initial
    state, and the state of instances that leave the screen is dropped.  (A
    render that throws takes the whole tree down; the world then never changes
    again, since no control is left to activate.) *)
Definition commit (before after : world) : world :=
  set_opens
    (if page_shown after
     then (if page_shown before then opens after else mount_items)
     else ∅)
    after.

(** What a handler does to the state when it runs. *)
Definition run_action (a : action) (w : world) : world :=
  match a with
  | HandlePrev => set_index (handlePrev (index w)) w
  | HandleNext => set_index (handleNext (reports w) (index w)) w
  | Toggle k => set_opens (toggle_item k (opens w)) w
  end.

Inductive event : Type :=
| FetchResolved (data : list value)   (* [.then((data) => setReports(data))] *)
| FetchRejected (err : string)        (* [.catch((err) => console.error(...))] *)
| Click (a : action).                 (* activation of the control carrying [a] *)

(** The promise settles once; a click reaches a handler only through an
    enabled control that is on screen. *)
Definition step (w : world) (e : event) : world :=
  match e with
  | FetchResolved data =>
      if pending w then commit w (settle (set_reports data w)) else w
  | FetchRejected err =>
      if pending w then settle (console_error "Failed to load JSON:" err w) else w
  | Click a =>
      if clickable a (view w) then commit w (run_action a w) else w
  end.

Definition run (w : world) (es : list event) : world := foldl step w es.

(** The worlds the application can be in. *)
Inductive reachable : world → Prop :=
| reachable_mount : reachable mount
| reachable_step (w : world) (e : event) : reachable w → reachable (step w e).

(** What holds of every reachable world. *)
Definition world_inv (w : world) : Prop :=
  (pending w = true → reports w = [] ∧ index w = 0%Z)
  ∧ (page_shown w = false → opens w = ∅)
  ∧ (reports w = [] → index w = 0%Z)
  ∧ (reports w ≠ [] → (0 ≤ index w ≤ Z.of_nat (length (reports w)) - 1)%Z)
  ∧ fetches w = 1.

End Runtime.

(** ** Sample documents *)
Module Samples.
Import Runtime.

Definition report_a : value :=
  Obj [ ("file_name", Str "A.pdf"); ("ServiceAuditor", Str "Acme LLP");
        ("ControlNumber", Arr [Str "C1"; Str "C2"]) ].

Definition report_b : value :=
  Obj [ ("file_name", Str "B.pdf");
        ("ThirdPartyServiceProvider", Arr [Str "Cloud Co"]);
        ("ServicesProvided",
         Arr [Obj [("service", Str "Hosting"); ("description", Str "Managed hosting")]]) ].

Definition report_c : value := Obj [("file_name", Str "C.pdf")].

(** The viewer once a document of two, or of three, records has loaded. *)
Definition loaded_two : world := step mount (FetchResolved [report_a; report_b]).
Definition loaded_three : world := step mount (FetchResolved [report_a; report_b; report_c]).

End Samples.

(** ** App.tsx *)
Module Shell.
Import Viewer Runtime.

(** A component element in child position: its body runs when the element is
    rendered, and what it returns is rendered under the context of the place
    the element stands in. *)
Definition component (body : res elem) : elem := λ ctx, f ← body; f ctx.

Definition App (reports : list value) (index : Z) (σ : gmap nat bool) : elem :=
  el "div" [component (ReportViewer reports index σ)].

(** What the screen holds for a world: the shell around the viewer. *)
Definition screen (w : world) : res (list node) :=
  App (reports w) (index w) (opens w) None.

End Shell.

(** ** Shapes of field values the viewer tells apart *)
Module Shapes.
Import Viewer.

Definition is_array (v : value) : bool :=
  match v with Arr _ => true | _ => false end.

(** Neither missing nor an array: a value on which [?.map] is called and is
    not a function. *)
Definition not_a_list (v : value) : bool := negb (nullish v) && negb (is_array v).

(** The three ways a collection can be empty. *)
Definition empty_collection (v : value) : bool :=
  match v with
  | Undefined | Null | Arr [] => true
  | _ => false
  end.

(** The sections whose [map] callback reads properties of the member. *)
Definition keyed_fields : list string :=
  [ "ServicesProvided"; "ControlObjective"; "ControlDescription";
    "ReportsInScope"; "CUECDescription" ].

(** The fields rendered outside the accordion: title and summary panel. *)
Definition always_rendered_fields : list string :=
  [ "file_name"; "ServiceAuditor"; "SOC1ReportType"; "ReportPeriod";
    "AuditorOpinionDate" ].

(** Records on which the component body runs to its end and whose title and
    summary can be rendered; nothing is asked of what the sections hold as
    children. *)
Definition eager_ok (r : value) : bool :=
  truthy r
  && forallb (λ f, renderable (field r f)) always_rendered_fields
  && collection_ok (λ _, true) (field r "ThirdPartyServiceProvider")
  && collection_ok (λ _, true) (field r "SubserviceProvider")
  && collection_ok (λ s, negb (nullish s)) (field r "ServicesProvided")
  && collection_ok (λ _, true) (field r "ControlNumber")
  && collection_ok (λ s, negb (nullish s)) (field r "ControlObjective")
  && collection_ok (λ s, negb (nullish s)) (field r "ControlDescription")
  && collection_ok (λ s, negb (nullish s)) (field r "ReportsInScope")
  && collection_ok (λ s, negb (nullish s)) (field r "CUECDescription").

(** The list items the three kinds of callback produce for text members. *)
Definition strong_item (s : string) : node :=
  Elem "li" false None [Elem "strong" false None [Text s]].

Definition plain_item (s : string) : node :=
  Elem "li" false None [Text s].

Definition pair_item (p : string * string) : node :=
  Elem "li" false None
    [Elem "strong" false None [Text p.1; Text ":"]; Text " "; Text p.2].

Definition pair_object (key val : string) (p : string * string) : value :=
  Obj [(key, Str p.1); (val, Str p.2)].

(** The three sections whose items are the members themselves ([strong]
    tells whether the member is set in bold), with the field each lists, its
    slot and its title. *)
Definition text_wrap (strong : bool) (s : value) : elem :=
  if strong then el "li" [el "strong" [child s]] else el "li" [child s].

Definition text_item (strong : bool) (s : string) : node :=
  if strong then strong_item s else plain_item s.

Definition text_sections (σ : gmap nat bool)
    : list (string * nat * string * bool * (value → res elem)) :=
  [ ("ThirdPartyServiceProvider", 1, "Third Party Service Providers", true,
     section_ThirdPartyServiceProvider σ);
    ("SubserviceProvider", 2, "Subservice Providers", false,
     section_subservice σ);
    ("ControlNumber", 4, "Control Numbers", true,
     section_control_numbers σ) ].

(** The four sections over pairs, with the two properties each reads. *)
Definition pair_sections (σ : gmap nat bool)
    : list (string * nat * string * (string * string) * (value → res elem)) :=
  [ ("ServicesProvided", 3, "Services Provided", ("service", "description"),
     section_services σ);
    ("ControlObjective", 5, "Control Objectives", ("id", "objective"),
     section_control_objectives σ);
    ("ControlDescription", 6, "Control Descriptions", ("number", "description"),
     section_control_descriptions σ);
    ("CUECDescription", 9, "CUECs", ("number", "description"),
     section_cuecs σ) ].

(** An element all of whose render errors are React's invalid-child error,
    an element that renders no list item, and one that renders exactly one. *)
Definition invalid_only (e : elem) : Prop :=
  ∀ ctx err, e ctx = Throw err → err = InvalidChild.

Definition no_li (e : elem) : Prop :=
  ∀ ctx ns, e ctx = Ok ns → count_tags "li" ns = 0.

Definition one_li (e : elem) : Prop :=
  ∀ ctx ns, e ctx = Ok ns → count_tags "li" ns = 1.

End Shapes.

(** ** Further sample documents *)
Module MoreSamples.
Import Runtime Samples.

(** A [null] between two records. *)
Definition with_gap : list value := [report_a; Null; report_b].

(** A string where a list is expected. *)
Definition report_scalar_list : value :=
  Obj [("file_name", Str "D.pdf"); ("ControlNumber", Str "C1")].

(** An object where a control number is expected. *)
Definition report_object_child : value :=
  Obj [("file_name", Str "E.pdf"); ("ControlNumber", Arr [Obj [("id", Str "C1")]])].

(** A [null] member in a keyed collection. *)
Definition report_null_member : value :=
  Obj [("file_name", Str "F.pdf"); ("ServicesProvided", Arr [Null])].

End MoreSamples.

(** * Properties *)

Import Accordion CardUi Viewer Runtime.

(** ** The error monad *)

Lemma bind_inv_Ok {A B} (f : A → res B) (m : res A) (b : B) :
  (m ≫= f) = Ok b → ∃ a, m = Ok a ∧ f a = Ok b.
Proof. destruct m as [a|e]; [eauto | discriminate]. Qed.

(** ** Reads *)

Lemma get_truthy (r : value) (name : string) :
  truthy r = true → get r name = Ok (field r name).
Proof. unfold field. by destruct r. Qed.

Lemma get_not_nullish (r : value) (name : string) :
  nullish r = false → get r name = Ok (field r name).
Proof. unfold field. by destruct r. Qed.

Lemma at_index_nil (i : Z) : at_index [] i = Undefined.
Proof. unfold at_index. by destruct (0 <=? i)%Z. Qed.

Lemma at_index_nat (l : list value) (n : nat) :
  at_index l (Z.of_nat n) = default Undefined (l !! n).
Proof.
  unfold at_index. rewrite Nat2Z.id.
  by destruct (Z.leb_spec 0 (Z.of_nat n)); [|lia].
Qed.

Lemma at_index_Forall (P : value → bool) (l : list value) (i : Z) :
  forallb P l = true → (0 ≤ i < Z.of_nat (length l))%Z → P (at_index l i) = true.
Proof.
  intros Hall Hi. rewrite <- (Z2Nat.id i) by lia. rewrite at_index_nat.
  destruct (l !! Z.to_nat i) as [v|] eqn:Hv.
  - simpl. rewrite forallb_forall in Hall. apply Hall.
    apply list_elem_of_In. by eapply list_elem_of_lookup_2.
  - apply lookup_ge_None in Hv. lia.
Qed.

(** ** Handlers in rendered nodes *)

Lemma find_control_no_handlers (a : action) :
  ∀ n, no_handlers n = true → find_control a n = None.
Proof.
  fix IH 1. intros [s | tag dis h kids]; simpl; [done|].
  intros [Hh Hk]%andb_prop. apply bool_decide_eq_true in Hh. subst h.
  case_decide; [done|].
  induction kids as [|x r IHr]; simpl in *; [done|].
  apply andb_prop in Hk as [Hx Hr]. rewrite (IH x Hx). apply IHr, Hr.
Qed.

Lemma find_controls_no_handlers (a : action) (ns : list node) :
  forallb no_handlers ns = true → find_controls a ns = None.
Proof.
  induction ns as [|x r IH]; simpl; [done|].
  intros [Hx Hr]%andb_prop. rewrite (find_control_no_handlers a x Hx). auto.
Qed.

Lemma find_controls_app (a : action) (ns ms : list node) :
  find_controls a (ns ++ ms) =
    match find_controls a ns with Some d => Some d | None => find_controls a ms end.
Proof.
  induction ns as [|x r IH]; simpl; [done|]. by destruct (find_control a x).
Qed.

Lemma find_control_Elem (a : action) tag dis h kids :
  find_control a (Elem tag dis h kids) =
    if decide (h = Some a) then Some dis else find_controls a kids.
Proof.
  simpl. case_decide; [done|]. induction kids as [|x r IH]; simpl; [done|].
  by rewrite IH.
Qed.

Lemma forallb_app_true {A} (P : A → bool) (l k : list A) :
  forallb P l = true → forallb P k = true → forallb P (l ++ k) = true.
Proof. intros Hl Hk. rewrite forallb_app, Hl, Hk. done. Qed.

Lemma render_child_no_handlers :
  ∀ v ns, render_child v = Ok ns → forallb no_handlers ns = true.
Proof.
  fix IH 1. intros [| |b|n|s|items|fields] ns; simpl; intros H;
    try (injection H as <-; done); try discriminate.
  revert ns H. induction items as [|x r IHr]; intros ns H.
  - by injection H as <-.
  - apply bind_inv_Ok in H as (n1 & H1 & H).
    apply bind_inv_Ok in H as (n2 & H2 & H). injection H as <-.
    apply forallb_app_true; [by eapply IH | by apply IHr].
Qed.

Lemma renderable_render_child :
  ∀ v, renderable v = true → ∃ ns, render_child v = Ok ns.
Proof.
  fix IH 1. intros [| |b|n|s|items|fields]; simpl; intros H; eauto; try discriminate.
  induction items as [|x r IHr]; simpl in *; [eauto|].
  apply andb_prop in H as [Hx Hr].
  destruct (IH x Hx) as [n1 ->]. destruct (IHr Hr) as [n2 ->]. simpl. eauto.
Qed.

(** ** Elements *)

Lemma render_all_inv_cons ctx (e : elem) (es : list elem) (ns : list node) :
  render_all ctx (e :: es) = Ok ns →
  ∃ n1 n2, e ctx = Ok n1 ∧ render_all ctx es = Ok n2 ∧ ns = n1 ++ n2.
Proof.
  simpl. intros H. apply bind_inv_Ok in H as (n1 & H1 & H).
  apply bind_inv_Ok in H as (n2 & H2 & H). injection H as <-. eauto.
Qed.

Lemma render_all_tame ctx (es : list elem) (ns : list node) :
  Forall tame es → render_all ctx es = Ok ns → forallb no_handlers ns = true.
Proof.
  intros Hes. revert ns. induction Hes as [|e es He _ IH]; intros ns H.
  - by injection H as <-.
  - apply render_all_inv_cons in H as (n1 & n2 & H1 & H2 & ->).
    apply forallb_app_true; [by eapply He | by apply IH].
Qed.

Lemma render_all_safe ctx (es : list elem) :
  Forall safe es → ∃ ns, render_all ctx es = Ok ns.
Proof.
  induction 1 as [|e es He _ [ms IH]]; simpl; [eauto|].
  destruct (He ctx) as [ns ->]. rewrite IH. simpl. eauto.
Qed.

Lemma host_inv tag dis h (cs : list elem) ctx (ns : list node) :
  host tag dis h cs ctx = Ok ns →
  ∃ kids, render_all ctx cs = Ok kids ∧ ns = [Elem tag dis h kids].
Proof.
  unfold host. intros H. apply bind_inv_Ok in H as (kids & Hk & H).
  injection H as <-. eauto.
Qed.

Lemma host_Ok tag dis h (cs : list elem) ctx (kids : list node) :
  render_all ctx cs = Ok kids → host tag dis h cs ctx = Ok [Elem tag dis h kids].
Proof. unfold host. by intros ->. Qed.

Lemma tame_child (v : value) : tame (child v).
Proof. intros ctx ns. apply render_child_no_handlers. Qed.

Lemma tame_text (s : string) : tame (text s).
Proof. intros ctx ns H. by injection H as <-. Qed.

Lemma tame_el tag (cs : list elem) : Forall tame cs → tame (el tag cs).
Proof.
  intros Hcs ctx ns H. apply host_inv in H as (kids & Hk & ->).
  simpl. by rewrite (render_all_tame _ _ _ Hcs Hk).
Qed.

Lemma safe_child (v : value) : renderable v = true → safe (child v).
Proof. intros Hv ctx. by apply renderable_render_child. Qed.

Lemma safe_text (s : string) : safe (text s).
Proof. intros ctx. by eexists. Qed.

Lemma safe_el tag (cs : list elem) : Forall safe cs → safe (el tag cs).
Proof.
  intros Hcs ctx. destruct (render_all_safe ctx cs Hcs) as [kids Hk].
  eexists. by apply host_Ok.
Qed.

Create HintDb elems.
#[local] Hint Resolve tame_child tame_text tame_el safe_text safe_el : elems.
#[local] Hint Constructors Forall : elems.

(** ** The disclosure primitive *)

Lemma AccordionItem_closed σ k (label body : list elem) ctx :
  item_open σ k = false →
  AccordionItem σ k [AccordionTrigger label; AccordionContent body] ctx =
    (ls ← render_all (Some {| open := false; toggle := Toggle k |}) label;
     Ok [Elem "div" false None [trigger_node k ls "+"]]).
Proof.
  intros Hc. unfold AccordionItem, AccordionTrigger, AccordionContent, el, host.
  rewrite Hc. simpl. destruct (render_all _ label); reflexivity.
Qed.

Lemma AccordionItem_open σ k (label body : list elem) ctx :
  item_open σ k = true →
  AccordionItem σ k [AccordionTrigger label; AccordionContent body] ctx =
    (ls ← render_all (Some {| open := true; toggle := Toggle k |}) label;
     bs ← render_all (Some {| open := true; toggle := Toggle k |}) body;
     Ok [Elem "div" false None
           [trigger_node k ls "−"; Elem "div" false None bs]]).
Proof.
  intros Hc. unfold AccordionItem, AccordionTrigger, AccordionContent, el, host.
  rewrite Hc. simpl. destruct (render_all _ label); [|reflexivity]. simpl.
  destruct (render_all _ body); reflexivity.
Qed.

Lemma find_controls_trigger (a : action) k (ls : list node) sign :
  forallb no_handlers ls = true →
  find_control a (trigger_node k ls sign) =
    if decide (a = Toggle k) then Some false else None.
Proof.
  intros Hls. unfold trigger_node. rewrite find_control_Elem.
  destruct (decide (a = Toggle k)) as [->|Hne].
  - by rewrite decide_True.
  - rewrite decide_False by congruence.
    apply find_controls_no_handlers. simpl. by rewrite Hls.
Qed.

Lemma AccordionItem_toggles_only σ k (label body : list elem) :
  Forall tame label → Forall tame body →
  toggles_only k (AccordionItem σ k [AccordionTrigger label; AccordionContent body]).
Proof.
  intros Hl Hb ctx ns a H. destruct (item_open σ k) eqn:Ho.
  - rewrite AccordionItem_open in H by done.
    apply bind_inv_Ok in H as (ls & Hls & H).
    apply bind_inv_Ok in H as (bs & Hbs & H). injection H as <-.
    apply (render_all_tame _ _ _ Hl) in Hls. apply (render_all_tame _ _ _ Hb) in Hbs.
    cbn [find_controls]. rewrite find_control_Elem, decide_False by done.
    cbn [find_controls]. rewrite find_controls_trigger by done.
    case_decide; [done|].
    rewrite (find_control_no_handlers a (Elem "div" false None bs)); [done|].
    simpl. by rewrite Hbs.
  - rewrite AccordionItem_closed in H by done.
    apply bind_inv_Ok in H as (ls & Hls & H). injection H as <-.
    apply (render_all_tame _ _ _ Hl) in Hls.
    cbn [find_controls]. rewrite find_control_Elem, decide_False by done.
    cbn [find_controls]. rewrite find_controls_trigger by done.
    by case_decide.
Qed.

Lemma AccordionItem_safe σ k (label body : list elem) :
  Forall safe label → Forall safe body →
  safe (AccordionItem σ k [AccordionTrigger label; AccordionContent body]).
Proof.
  intros Hl Hb ctx. destruct (item_open σ k) eqn:Ho.
  - rewrite AccordionItem_open by done.
    destruct (render_all_safe (Some {| open := true; toggle := Toggle k |}) label Hl)
      as [ls ->].
    destruct (render_all_safe (Some {| open := true; toggle := Toggle k |}) body Hb)
      as [bs ->].
    simpl. eauto.
  - rewrite AccordionItem_closed by done.
    destruct (render_all_safe (Some {| open := false; toggle := Toggle k |}) label Hl)
      as [ls ->].
    simpl. eauto.
Qed.

(** ** The [map] callbacks and the sections *)

Ltac bind_inv H :=
  repeat (let x := fresh "x" in let Hx := fresh "Hx" in
          apply bind_inv_Ok in H as (x & Hx & H));
  try (injection H as <-).

Lemma li_strong_tame s e : li_strong s = Ok e → tame e.
Proof. intros H. injection H as <-. auto 6 with elems. Qed.

Lemma li_plain_tame s e : li_plain s = Ok e → tame e.
Proof. intros H. injection H as <-. auto 6 with elems. Qed.

Lemma li_pair_tame key val s e : li_pair key val s = Ok e → tame e.
Proof. unfold li_pair. intros H. bind_inv H. auto 8 with elems. Qed.

Lemma li_report_tame r e : li_report r = Ok e → tame e.
Proof. unfold li_report. intros H. bind_inv H. auto 10 with elems. Qed.

Lemma li_strong_safe s : renderable s = true → ∃ e, li_strong s = Ok e ∧ safe e.
Proof. intros Hs. eexists; split; [done|]. auto 6 using safe_child with elems. Qed.

Lemma li_plain_safe s : renderable s = true → ∃ e, li_plain s = Ok e ∧ safe e.
Proof. intros Hs. eexists; split; [done|]. auto 6 using safe_child with elems. Qed.

Lemma li_pair_safe key val s :
  keyed_ok [key; val] s = true → ∃ e, li_pair key val s = Ok e ∧ safe e.
Proof.
  unfold keyed_ok, li_pair. simpl. intros H.
  apply andb_prop in H as [Hn H]. apply negb_true_iff in Hn.
  apply andb_prop in H as [Hk H]. apply andb_prop in H as [Hv _].
  rewrite !get_not_nullish by done. simpl.
  eexists; split; [done|]. auto 8 using safe_child with elems.
Qed.

Lemma li_report_safe r :
  keyed_ok ["report_name"; "source_page"; "source_control"] r = true →
  ∃ e, li_report r = Ok e ∧ safe e.
Proof.
  unfold keyed_ok, li_report. simpl. intros H.
  apply andb_prop in H as [Hn H]. apply negb_true_iff in Hn.
  apply andb_prop in H as [H1 H]. apply andb_prop in H as [H2 H].
  apply andb_prop in H as [H3 _].
  rewrite !get_not_nullish by done. simpl.
  eexists; split; [done|]. auto 10 using safe_child with elems.
Qed.

Lemma map_items_tame (f : value → res elem) (items : list value) (es : list elem) :
  (∀ x e, f x = Ok e → tame e) → map_items f items = Ok es → Forall tame es.
Proof.
  intros Hf. revert es. induction items as [|x r IH]; simpl; intros es H.
  - injection H as <-. constructor.
  - bind_inv H. constructor; eauto.
Qed.

Lemma map_items_safe (P : value → bool) (f : value → res elem) (items : list value) :
  (∀ x, P x = true → ∃ e, f x = Ok e ∧ safe e) →
  forallb P items = true → ∃ es, map_items f items = Ok es ∧ Forall safe es.
Proof.
  intros Hf. induction items as [|x r IH]; simpl; intros H.
  - eexists; split; [done|constructor].
  - apply andb_prop in H as [Hx Hr].
    destruct (Hf x Hx) as (e & -> & He). destruct (IH Hr) as (es & -> & Hes).
    simpl. eexists; split; [done|by constructor].
Qed.

Lemma optional_map_tame (f : value → res elem) (v : value) (es : list elem) :
  (∀ x e, f x = Ok e → tame e) → optional_map v f = Ok es → Forall tame es.
Proof.
  intros Hf. destruct v; simpl; intros H; try discriminate;
    try (injection H as <-; constructor). by eapply map_items_tame.
Qed.

Lemma optional_map_safe (P : value → bool) (f : value → res elem) (v : value) :
  (∀ x, P x = true → ∃ e, f x = Ok e ∧ safe e) →
  collection_ok P v = true → ∃ es, optional_map v f = Ok es ∧ Forall safe es.
Proof.
  intros Hf. destruct v; simpl; intros H; try discriminate;
    try (eexists; split; [done|constructor]). by eapply map_items_safe.
Qed.

Lemma list_section_toggles_only σ k title fld item report e :
  (∀ x e, item x = Ok e → tame e) →
  list_section σ k title fld item report = Ok e → toggles_only k e.
Proof.
  unfold list_section. intros Hitem H. bind_inv H.
  apply AccordionItem_toggles_only; [auto with elems|].
  repeat constructor. apply tame_el. by eapply optional_map_tame.
Qed.

Lemma list_section_safe (P : value → bool) σ k title fld item report :
  (∀ x, P x = true → ∃ e, item x = Ok e ∧ safe e) →
  truthy report = true → collection_ok P (field report fld) = true →
  ∃ e, list_section σ k title fld item report = Ok e ∧ safe e.
Proof.
  unfold list_section. intros Hitem Ht Hc. rewrite get_truthy by done. simpl.
  destruct (optional_map_safe P item _ Hitem Hc) as (es & -> & Hes). simpl.
  eexists; split; [done|]. apply AccordionItem_safe; auto with elems.
Qed.

Lemma section_AuditorsOpinion_toggles_only σ report e :
  section_AuditorsOpinion σ report = Ok e → toggles_only 0 e.
Proof.
  unfold section_AuditorsOpinion. intros H. bind_inv H.
  apply AccordionItem_toggles_only; auto 6 with elems.
Qed.

Lemma section_control_exception_toggles_only σ report e :
  section_control_exception σ report = Ok e → toggles_only 8 e.
Proof.
  unfold section_control_exception. intros H. bind_inv H.
  apply AccordionItem_toggles_only; auto 6 with elems.
Qed.

(** Section [i] of the page carries the trigger of slot [i] and no other
    control. *)
Lemma sections_toggles_only σ report (i : nat) f e :
  sections σ !! i = Some f → f report = Ok e → toggles_only i e.
Proof.
  intros Hi Hf.
  do 10 (destruct i as [|i];
    [ injection Hi as <-;
      first [ by eapply section_AuditorsOpinion_toggles_only
            | by eapply section_control_exception_toggles_only
            | eapply list_section_toggles_only; [|exact Hf];
              eauto using li_strong_tame, li_plain_tame, li_pair_tame, li_report_tame ]
    | ]).
  discriminate.
Qed.

Lemma build_sections_controls report (fs : list (value → res elem)) :
  ∀ (lo : nat) (es : list elem),
    (∀ i f e, fs !! i = Some f → f report = Ok e → toggles_only (lo + i) e) →
    build_sections fs report = Ok es →
    ∀ ctx ns a, render_all ctx es = Ok ns →
      find_controls a ns = accordion_controls lo (length fs) a.
Proof.
  induction fs as [|f fs IH]; intros lo es Hfs Hb ctx ns a Hr.
  - injection Hb as <-. injection Hr as <-. destruct a; simpl; [done..|].
    rewrite bool_decide_eq_false_2; [done|lia].
  - simpl in Hb. bind_inv Hb.
    apply render_all_inv_cons in Hr as (n1 & n2 & H1 & H2 & ->).
    rewrite find_controls_app.
    pose proof (Hfs 0 f x eq_refl Hx ctx n1 a H1) as Hhead.
    rewrite Nat.add_0_r in Hhead. rewrite Hhead.
    assert (Htail : find_controls a n2 = accordion_controls (S lo) (length fs) a).
    { eapply (IH (S lo)); [|done..].
      intros i g e Hi Hg. replace (S lo + i) with (lo + S i) by lia. eauto. }
    rewrite Htail. destruct a as [| |j]; simpl; [done..|].
    destruct (decide (Toggle j = Toggle lo)) as [Heq|Hne].
    + injection Heq as ->. rewrite bool_decide_eq_true_2; [done|lia].
    + assert (j ≠ lo) by congruence.
      repeat case_bool_decide; first [done | lia].
Qed.

(** ** The page *)

Lemma nav_buttons_render rs i ctx : nav_buttons rs i ctx = Ok [nav_nodes rs i].
Proof. reflexivity. Qed.

Lemma page_header_truthy rs i r :
  truthy r = true →
  page_header rs i r =
    Ok (el "div" [el "h1" [child (field r "file_name")]; nav_buttons rs i]).
Proof. intros Ht. unfold page_header. by rewrite get_truthy. Qed.

Lemma page_summary_truthy r :
  truthy r = true →
  page_summary r =
    Ok (Card [CardContent
                [ summary_line "Auditor:" (field r "ServiceAuditor");
                  summary_line "Report Type:" (field r "SOC1ReportType");
                  summary_line "Period:" (field r "ReportPeriod");
                  summary_line "Opinion Date:" (field r "AuditorOpinionDate") ]]).
Proof. intros Ht. unfold page_summary. by rewrite !get_truthy. Qed.

Lemma summary_line_tame label v : tame (summary_line label v).
Proof. unfold summary_line. auto 8 with elems. Qed.

Lemma summary_line_safe label v : renderable v = true → safe (summary_line label v).
Proof. intros Hv. unfold summary_line. auto 8 using safe_child with elems. Qed.

Lemma ReportViewer_loading rs i σ :
  truthy (at_index rs i) = false → render (ReportViewer rs i σ) = Ok loading_nodes.
Proof. intros Hf. unfold render, ReportViewer. by rewrite Hf. Qed.

(** The shape of the record page, whenever it renders. *)
Lemma ReportViewer_page rs i σ ns :
  truthy (at_index rs i) = true →
  render (ReportViewer rs i σ) = Ok ns →
  ∃ title summary items,
    ns = [Elem "div" false None
            (Elem "div" false None [Elem "h1" false None title; nav_nodes rs i]
             :: summary ++ [Elem "div" false None items])]
    ∧ render_child (field (at_index rs i) "file_name") = Ok title
    ∧ forallb no_handlers summary = true
    ∧ ∀ a, find_controls a items = accordion_controls 0 10 a.
Proof.
  intros Ht. unfold render, ReportViewer. rewrite Ht. simpl.
  rewrite page_header_truthy, page_summary_truthy by done. simpl.
  intros H. apply bind_inv_Ok in H as (e & He & H).
  apply bind_inv_Ok in He as (es & Hes & He). injection He as <-.
  apply host_inv in H as (kids & Hk & ->).
  apply render_all_inv_cons in Hk as (hd & k1 & Hhd & Hk & ->).
  apply render_all_inv_cons in Hk as (sm & k2 & Hsm & Hk & ->).
  apply render_all_inv_cons in Hk as (ac & k3 & Hac & Hk & ->).
  injection Hk as <-.
  apply host_inv in Hhd as (hk & Hhk & ->).
  apply render_all_inv_cons in Hhk as (h1 & hk2 & Hh1 & Hhk & ->).
  apply host_inv in Hh1 as (title & Htitle & ->).
  apply render_all_inv_cons in Htitle as (t1 & t2 & Ht1 & Ht2 & ->).
  injection Ht2 as <-. rewrite app_nil_r.
  simpl in Hhk. injection Hhk as <-.
  apply host_inv in Hac as (items & Hitems & ->).
  exists t1, sm, items. rewrite app_nil_r. split; [done|]. split; [exact Ht1|]. split.
  - revert Hsm. apply tame_el. repeat constructor. apply tame_el.
    repeat constructor; apply summary_line_tame.
  - intros a. eapply (build_sections_controls _ (sections σ) 0); [|exact Hes|exact Hitems].
    intros j f e0 Hj Hf. simpl. by eapply sections_toggles_only.
Qed.

Lemma ReportViewer_controls rs i σ ns (a : action) :
  truthy (at_index rs i) = true →
  render (ReportViewer rs i σ) = Ok ns →
  find_controls a ns = page_controls rs i a.
Proof.
  intros Ht H. destruct (ReportViewer_page _ _ _ _ Ht H)
    as (title & summary & items & -> & Htitle & Hsum & Hitems).
  apply render_child_no_handlers in Htitle.
  cbn [find_controls]. rewrite find_control_Elem, decide_False by done.
  cbn [find_controls]. rewrite find_control_Elem, decide_False by done.
  cbn [find_controls].
  rewrite (find_control_no_handlers a (Elem "h1" false None title))
    by (simpl; by rewrite Htitle).
  unfold nav_nodes. rewrite !find_control_Elem, decide_False by done.
  cbn [find_controls]. rewrite !find_control_Elem.
  destruct a as [| |j]; simpl; [done..|].
  rewrite find_controls_app, (find_controls_no_handlers _ _ Hsum).
  cbn [find_controls]. rewrite find_control_Elem, decide_False by done.
  rewrite Hitems. simpl. by destruct (bool_decide _).
Qed.

Lemma ReportViewer_title rs i σ ns :
  truthy (at_index rs i) = true →
  render (ReportViewer rs i σ) = Ok ns →
  ∃ title, find_tags "h1" ns = Some title
           ∧ render_child (field (at_index rs i) "file_name") = Ok title.
Proof.
  intros Ht H. destruct (ReportViewer_page _ _ _ _ Ht H)
    as (title & summary & items & -> & Htitle & _). by exists title.
Qed.

(** A well-shaped record renders, whatever sections are open. *)
Lemma build_sections_safe σ r :
  well_shaped r = true →
  ∃ es, build_sections (sections σ) r = Ok es ∧ Forall safe es.
Proof.
  unfold well_shaped, scalar_fields. cbn [forallb]. intros H.
  repeat (let Hc := fresh "Hc" in apply andb_prop in H as [H Hc]).
  repeat (let Hs := fresh "Hs" in apply andb_prop in Hc7 as [Hs Hc7]).
  pose proof H as Ht.
  unfold sections, section_ThirdPartyServiceProvider, section_subservice,
    section_services, section_control_numbers, section_control_objectives,
    section_control_descriptions, section_reports_inscope, section_cuecs.
  cbn [build_sections].
  unfold section_AuditorsOpinion, section_control_exception.
  rewrite !(get_truthy r) by done. cbn [mbind res_bind].
  destruct (list_section_safe _ σ 1 "Third Party Service Providers"
              "ThirdPartyServiceProvider" _ r li_strong_safe Ht) as (e1 & -> & ?); [done|].
  destruct (list_section_safe _ σ 2 "Subservice Providers"
              "SubserviceProvider" _ r li_plain_safe Ht) as (e2 & -> & ?); [done|].
  destruct (list_section_safe _ σ 3 "Services Provided"
              "ServicesProvided" _ r (li_pair_safe "service" "description") Ht) as (e3 & -> & ?); [done|].
  destruct (list_section_safe _ σ 4 "Control Numbers"
              "ControlNumber" _ r li_strong_safe Ht) as (e4 & -> & ?); [done|].
  destruct (list_section_safe _ σ 5 "Control Objectives"
              "ControlObjective" _ r (li_pair_safe "id" "objective") Ht) as (e5 & -> & ?); [done|].
  destruct (list_section_safe _ σ 6 "Control Descriptions"
              "ControlDescription" _ r (li_pair_safe "number" "description") Ht) as (e6 & -> & ?); [done|].
  destruct (list_section_safe _ σ 7 "Reports In Scope"
              "ReportsInScope" _ r li_report_safe Ht) as (e7 & -> & ?); [done|].
  destruct (list_section_safe _ σ 9 "CUECs"
              "CUECDescription" _ r (li_pair_safe "number" "description") Ht) as (e9 & -> & ?); [done|].
  cbn [mbind res_bind]. eexists; split; [done|].
  repeat constructor; try done;
    apply AccordionItem_safe; auto 8 using safe_child with elems.
Qed.

Lemma ReportViewer_safe rs i σ :
  well_shaped (at_index rs i) = true → ∃ ns, render (ReportViewer rs i σ) = Ok ns.
Proof.
  intros Hw. destruct (build_sections_safe σ _ Hw) as (es & Hes & Hsafe).
  revert Hw. unfold well_shaped, scalar_fields. cbn [forallb]. intros H.
  repeat (let Hc := fresh "Hc" in apply andb_prop in H as [H Hc]).
  repeat (let Hs := fresh "Hs" in apply andb_prop in Hc7 as [Hs Hc7]).
  unfold render, ReportViewer. cbv zeta. rewrite H. cbn [negb].
  rewrite page_header_truthy, page_summary_truthy by done. cbn [mbind res_bind].
  rewrite Hes. cbn [mbind res_bind].
  apply safe_el. repeat constructor.
  - apply safe_el. repeat constructor.
    + apply safe_el. repeat constructor. by apply safe_child.
    + intros ctx. eexists. apply nav_buttons_render.
  - unfold Card, CardContent. apply safe_el. repeat constructor. apply safe_el.
    repeat constructor; by apply summary_line_safe.
  - by apply safe_el.
Qed.

(** ** The running application *)

Lemma view_loading (w : world) : page_shown w = false → view w = Ok loading_nodes.
Proof. apply ReportViewer_loading. Qed.

Lemma page_shown_in_range (w : world) :
  page_shown w = true → (0 ≤ index w ≤ Z.of_nat (length (reports w)) - 1)%Z.
Proof.
  unfold page_shown, at_index. destruct (Z.leb_spec 0 (index w)); [|done].
  destruct (reports w !! Z.to_nat (index w)) eqn:Hl; [|done].
  apply lookup_lt_Some in Hl. lia.
Qed.

(** A control can be activated only while the page is shown, and then exactly
    when the page offers it enabled. *)
Lemma clickable_inv (a : action) (w : world) :
  clickable a (view w) = true →
  page_shown w = true ∧ page_controls (reports w) (index w) a = Some false.
Proof.
  destruct (page_shown w) eqn:Hp.
  - unfold clickable. destruct (view w) as [ns|] eqn:Hv; [|done].
    intros H%bool_decide_eq_true. split; [done|].
    by rewrite <- (ReportViewer_controls _ _ _ _ a Hp Hv).
  - rewrite view_loading by done. simpl. by destruct a.
Qed.

Lemma clickable_intro (a : action) (w : world) :
  well_shaped (at_index (reports w) (index w)) = true →
  page_controls (reports w) (index w) a = Some false →
  clickable a (view w) = true.
Proof.
  intros Hw Hc. destruct (ReportViewer_safe (reports w) (index w) (opens w) Hw) as [ns Hv].
  assert (Hp : truthy (at_index (reports w) (index w)) = true).
  { unfold well_shaped in Hw. repeat (apply andb_prop in Hw as [Hw _]). done. }
  unfold clickable, view. rewrite Hv. apply bool_decide_eq_true.
  by rewrite (ReportViewer_controls _ _ _ _ a Hp Hv).
Qed.

Lemma well_shaped_truthy (r : value) : well_shaped r = true → truthy r = true.
Proof. unfold well_shaped. intros H. repeat (apply andb_prop in H as [H _]). done. Qed.

Lemma commit_page (w w' : world) :
  page_shown w = true → page_shown w' = true → commit w w' = w'.
Proof. unfold commit. intros -> Hp. unfold page_shown in Hp |- *. destruct w'; simpl in *. by rewrite Hp. Qed.

Lemma set_index_same (w : world) : set_index (index w) w = w.
Proof. by destruct w. Qed.

Lemma set_index_twice (i j : Z) (w : world) : set_index i (set_index j w) = set_index i w.
Proof. by destruct w. Qed.

Lemma set_opens_twice (σ τ : store) (w : world) : set_opens σ (set_opens τ w) = set_opens σ w.
Proof. by destruct w. Qed.

Lemma set_opens_same (w : world) : set_opens (opens w) w = w.
Proof. by destruct w. Qed.

(** Clicks on the navigation controls. *)
Lemma click_prev_at_first (w : world) : index w = 0%Z → step w (Click HandlePrev) = w.
Proof.
  intros Hi. simpl. destruct (clickable _ _) eqn:Hc; [|done].
  apply clickable_inv in Hc as [_ Hc]. simpl in Hc. unfold prev_disabled in Hc.
  by rewrite Hi in Hc.
Qed.

Lemma click_next_at_last (w : world) :
  index w = (Z.of_nat (length (reports w)) - 1)%Z → step w (Click HandleNext) = w.
Proof.
  intros Hi. simpl. destruct (clickable _ _) eqn:Hc; [|done].
  apply clickable_inv in Hc as [_ Hc]. simpl in Hc. unfold next_disabled in Hc.
  rewrite Hi, Z.eqb_refl in Hc. done.
Qed.

Lemma click_next_inside (w : world) :
  forallb well_shaped (reports w) = true →
  (0 ≤ index w < Z.of_nat (length (reports w)) - 1)%Z →
  step w (Click HandleNext) = set_index (index w + 1) w.
Proof.
  intros Hall Hi. simpl.
  assert (Hw : well_shaped (at_index (reports w) (index w)) = true)
    by (apply at_index_Forall; [done|lia]).
  rewrite clickable_intro; [|done|].
  - unfold handleNext. rewrite Z.min_l by lia.
    apply commit_page; [by apply well_shaped_truthy|].
    unfold page_shown. destruct w; simpl in *.
    apply well_shaped_truthy, at_index_Forall; [done|lia].
  - simpl. unfold next_disabled. f_equal. apply Z.eqb_neq. lia.
Qed.

Lemma click_prev_inside (w : world) :
  forallb well_shaped (reports w) = true →
  (0 < index w ≤ Z.of_nat (length (reports w)) - 1)%Z →
  step w (Click HandlePrev) = set_index (index w - 1) w.
Proof.
  intros Hall Hi. simpl.
  assert (Hw : well_shaped (at_index (reports w) (index w)) = true)
    by (apply at_index_Forall; [done|lia]).
  rewrite clickable_intro; [|done|].
  - unfold handlePrev. rewrite Z.max_l by lia.
    apply commit_page; [by apply well_shaped_truthy|].
    unfold page_shown. destruct w; simpl in *.
    apply well_shaped_truthy, at_index_Forall; [done|lia].
  - simpl. unfold prev_disabled. f_equal. apply Z.eqb_neq. lia.
Qed.

(** Navigation keeps the index inside the array. *)
Lemma navigate_in_range (rs : list value) (i : Z) (op : nav) :
  (0 ≤ i ≤ Z.of_nat (length rs) - 1)%Z →
  (0 ≤ navigate rs i op ≤ Z.of_nat (length rs) - 1)%Z.
Proof. destruct op; unfold navigate, handlePrev, handleNext; lia. Qed.

Lemma navigate_all_in_range (rs : list value) (ops : list nav) :
  ∀ i, (0 ≤ i ≤ Z.of_nat (length rs) - 1)%Z →
       (0 ≤ foldl (navigate rs) i ops ≤ Z.of_nat (length rs) - 1)%Z.
Proof.
  induction ops as [|op ops IH]; intros i Hi; simpl; [done|].
  apply IH. by apply navigate_in_range.
Qed.

(** ** Reachable worlds *)

Lemma page_shown_nil (w : world) : reports w = [] → page_shown w = false.
Proof. unfold page_shown. intros ->. by rewrite at_index_nil. Qed.

Lemma mount_inv : world_inv mount.
Proof. repeat split; done. Qed.

Lemma commit_fields (w w' : world) :
  reports (commit w w') = reports w' ∧ index (commit w w') = index w'
  ∧ pending (commit w w') = pending w' ∧ fetches (commit w w') = fetches w'
  ∧ console (commit w w') = console w'
  ∧ page_shown (commit w w') = page_shown w'.
Proof. by destruct w'. Qed.

Lemma commit_hidden (w w' : world) : page_shown w' = false → opens (commit w w') = ∅.
Proof. unfold commit. by intros ->. Qed.

Lemma step_inv (w : world) (e : event) : world_inv w → world_inv (step w e).
Proof.
  intros Hinv. pose proof Hinv as (Hpend & Hhid & Hnil & Hrng & Hfet).
  destruct e as [data|err|a]; simpl.
  - destruct (pending w) eqn:Hp; [|exact Hinv].
    destruct (Hpend eq_refl) as [Hr Hi].
    destruct (commit_fields w (settle (set_reports data w)))
      as (Hr' & Hi' & Hp' & Hf' & _ & Hps).
    unfold world_inv. rewrite Hr', Hi', Hp', Hf'.
    split; [|split; [|split; [|split]]]; try done.
    + intros Hh. apply commit_hidden. by rewrite <- Hps.
    + simpl. intros Hne. destruct data; [done|]. rewrite Hi. simpl length. lia.
  - destruct (pending w) eqn:Hp; [|exact Hinv].
    destruct (Hpend eq_refl) as [Hr Hi].
    split; [|split; [|split; [|split]]]; done.
  - destruct (clickable a (view w)) eqn:Hc; [|exact Hinv].
    apply clickable_inv in Hc as [Hs _].
    pose proof (page_shown_in_range w Hs) as Hin.
    destruct (commit_fields w (run_action a w)) as (Hr' & Hi' & Hp' & Hf' & _ & Hps).
    unfold world_inv. rewrite Hr', Hi', Hp', Hf'.
    assert (Hne : reports w ≠ []).
    { intros Hr. apply page_shown_nil in Hr. congruence. }
    split; [|split; [|split; [|split]]].
    + intros Hp. destruct a; simpl in Hp; destruct (Hpend Hp) as [Hr _]; done.
    + intros Hh. apply commit_hidden. by rewrite <- Hps.
    + destruct a; simpl; done.
    + intros _. destruct a; simpl; unfold handlePrev, handleNext; lia.
    + by destruct a.
Qed.

Lemma reachable_inv (w : world) : reachable w → world_inv w.
Proof. induction 1; [apply mount_inv | by apply step_inv]. Qed.

Lemma reachable_run (w : world) (es : list event) : reachable w → reachable (run w es).
Proof.
  revert w. induction es as [|e es IH]; intros w Hw; simpl; [done|].
  apply IH. by constructor.
Qed.

(** Once the fetch has settled on an empty array, nothing changes any more. *)
Lemma step_settled_empty (w : world) (e : event) :
  reports w = [] → pending w = false → step w e = w.
Proof.
  intros Hr Hp. destruct e as [data|err|a]; simpl; rewrite ?Hp; try done.
  destruct (clickable a (view w)) eqn:Hc; [|done].
  apply clickable_inv in Hc as [Hs _]. by rewrite page_shown_nil in Hs.
Qed.

Lemma run_settled_empty (w : world) (es : list event) :
  reports w = [] → pending w = false → run w es = w.
Proof.
  intros Hr Hp. induction es as [|e es IH]; simpl; [done|].
  by rewrite step_settled_empty.
Qed.

(** ** Accordion state *)

Lemma flip_flip (b : bool) : flip (flip b) = b.
Proof. apply negb_involutive. Qed.

Lemma toggle_item_twice (k : nat) (σ : store) : toggle_item k (toggle_item k σ) = σ.
Proof.
  unfold toggle_item. apply map_eq. intros j.
  destruct (decide (k = j)) as [->|Hne].
  - rewrite !lookup_alter_eq. destruct (σ !! j); simpl; [|done]. by rewrite flip_flip.
  - by rewrite !lookup_alter_ne.
Qed.

Lemma toggle_item_other (k j : nat) (σ : store) :
  j ≠ k → toggle_item k σ !! j = σ !! j.
Proof. intros Hne. unfold toggle_item. by rewrite lookup_alter_ne. Qed.

Lemma toggle_item_self (k : nat) (σ : store) :
  toggle_item k σ !! k = flip <$> σ !! k.
Proof. unfold toggle_item. by rewrite lookup_alter_eq. Qed.

Lemma mount_items_lookup (k : nat) :
  mount_items !! k = if bool_decide (k < 10) then Some false else None.
Proof.
  do 10 (destruct k as [|k]; [reflexivity|]).
  rewrite bool_decide_eq_false_2 by lia.
  unfold mount_items, slots, mount_item. simpl.
  rewrite !lookup_insert_ne by lia. apply lookup_empty.
Qed.

Lemma step_toggle (w : world) (k : nat) :
  clickable (Toggle k) (view w) = true →
  step w (Click (Toggle k)) = set_opens (toggle_item k (opens w)) w.
Proof.
  intros Hc. simpl. rewrite Hc. apply clickable_inv in Hc as [Hs _].
  apply commit_page; [done|]. by destruct w.
Qed.

Lemma toggle_clickable_iff (w : world) (σ : store) (k : nat) :
  is_ok (view w) = true → is_ok (view (set_opens σ w)) = true →
  clickable (Toggle k) (view (set_opens σ w)) = clickable (Toggle k) (view w).
Proof.
  intros Ho Ho'. destruct (page_shown w) eqn:Hs.
  - unfold clickable. destruct (view w) as [ns|] eqn:Hv; [|done].
    destruct (view (set_opens σ w)) as [ns'|] eqn:Hv'; [|done].
    rewrite (ReportViewer_controls _ _ _ _ (Toggle k) Hs Hv).
    assert (Hs' : page_shown (set_opens σ w) = true) by by destruct w.
    rewrite (ReportViewer_controls _ _ _ _ (Toggle k) Hs' Hv'). by destruct w.
  - rewrite !view_loading; [done..|by destruct w].
Qed.

(** * The disclosure primitive: claims C5 to C8 *)

Lemma item_open_mount (k : nat) (σ : store) : item_open (mount_item k σ) k = false.
Proof. unfold item_open, mount_item. by rewrite lookup_insert_eq. Qed.

Lemma toggle_twice_world (w : world) (k : nat) :
  is_ok (view (step w (Click (Toggle k)))) = true →
  step (step w (Click (Toggle k))) (Click (Toggle k)) = w.
Proof.
  intros Hok. destruct (clickable (Toggle k) (view w)) eqn:Hc.
  - rewrite (step_toggle w k) in Hok |- * by done.
    assert (Hokw : is_ok (view w) = true).
    { unfold clickable in Hc. by destruct (view w). }
    assert (Hc' : clickable (Toggle k) (view (set_opens (toggle_item k (opens w)) w)) = true)
      by (rewrite toggle_clickable_iff; [exact Hc|exact Hokw|exact Hok]).
    rewrite step_toggle by done.
    simpl. rewrite set_opens_twice, toggle_item_twice. apply set_opens_same.
  - assert (Hw : step w (Click (Toggle k)) = w) by (simpl; by rewrite Hc).
    rewrite Hw. exact Hw.
Qed.

(** C5. Toggling a disclosure instance twice brings it back to the state it
    started from, whatever that state was: the updater is an involution on
    the flag and on the store of instances; from the initial state the content
    region is absent from the render again; and in the running application two
    activations of the same trigger leave the world as it was (provided the
    page still renders after the first one, so that the trigger can be
    activated a second time). *)
Theorem toggle_twice_restores (σ : store) (k : nat) (b : bool) (body : list elem) :
  flip (flip b) = b
  ∧ toggle_item k (toggle_item k σ) = σ
  ∧ item_open (toggle_item k (toggle_item k (mount_item k σ))) k = initial_open
  ∧ AccordionContent body
      (Some {| open := item_open (toggle_item k (toggle_item k (mount_item k σ))) k;
               toggle := Toggle k |}) = Ok []
  ∧ ∀ w : world,
      is_ok (view (step w (Click (Toggle k)))) = true →
      step (step w (Click (Toggle k))) (Click (Toggle k)) = w.
Proof.
  split; [apply flip_flip|]. split; [apply toggle_item_twice|].
  rewrite toggle_item_twice, item_open_mount.
  split; [done|]. split; [done|]. intros w. apply toggle_twice_world.
Qed.

Lemma opens_commit (w w' : world) :
  opens (commit w w') =
    if page_shown w' then (if page_shown w then opens w' else mount_items) else ∅.
Proof. reflexivity. Qed.

Lemma appear_closed (w : world) (e : event) (k : nat) (b : bool) :
  opens w !! k = None → opens (step w e) !! k = Some b → b = false.
Proof.
  intros Hn. destruct e as [data|err|a]; simpl.
  - destruct (pending w); [|congruence]. rewrite opens_commit.
    destruct (page_shown (settle _)); [|by rewrite lookup_empty].
    destruct (page_shown w); [simpl; congruence|].
    rewrite mount_items_lookup. case_bool_decide; congruence.
  - destruct (pending w); simpl; congruence.
  - destruct (clickable a (view w)) eqn:Hc; [|congruence].
    apply clickable_inv in Hc as [Hs _]. rewrite opens_commit, Hs.
    destruct (page_shown (run_action a w)); [|by rewrite lookup_empty].
    destruct a as [| |j]; simpl; try congruence.
    destruct (decide (j = k)) as [->|Hne].
    + rewrite toggle_item_self, Hn. done.
    + rewrite toggle_item_other by done. congruence.
Qed.

Lemma flag_changes_by_trigger (w : world) (e : event) (k : nat) (b b' : bool) :
  reachable w →
  opens w !! k = Some b → opens (step w e) !! k = Some b' → b ≠ b' →
  e = Click (Toggle k) ∧ clickable (Toggle k) (view w) = true ∧ b' = flip b.
Proof.
  intros Hre Hb Hb' Hne. apply reachable_inv in Hre as (Hpend & Hhid & _).
  assert (Hs : page_shown w = true).
  { destruct (page_shown w) eqn:Hs; [done|]. rewrite (Hhid eq_refl), lookup_empty in Hb. done. }
  destruct e as [data|err|a]; simpl in Hb'.
  - destruct (pending w) eqn:Hp; [|congruence].
    destruct (Hpend eq_refl) as [Hr _]. apply page_shown_nil in Hr. congruence.
  - destruct (pending w); simpl in Hb'; congruence.
  - destruct (clickable a (view w)) eqn:Hc; [|congruence].
    rewrite opens_commit, Hs in Hb'.
    destruct (page_shown (run_action a w)); [|by rewrite lookup_empty in Hb'].
    destruct a as [| |j]; simpl in Hb'; try congruence.
    destruct (decide (j = k)) as [->|Hjk].
    + rewrite toggle_item_self, Hb in Hb'. simpl in Hb'. split; [done|]. split; congruence.
    + rewrite toggle_item_other in Hb' by done. congruence.
Qed.

(** C6. A disclosure instance starts closed ([useState(false)], also for every
    instance that appears in the running application); its content region is
    rendered exactly when it is open, and when closed nothing of it is in the
    output (its children are not even rendered); and the flag of an instance
    on screen changes only through an activation of its own trigger, which
    flips it. *)
Theorem disclosure_state_machine (k : nat) (c : item_ctx) (body : list elem) :
  initial_open = false
  ∧ (∀ σ : store, item_open (mount_item k σ) k = false)
  ∧ (∀ (w : world) (e : event) (b : bool),
       opens w !! k = None → opens (step w e) !! k = Some b → b = false)
  ∧ (open c = false → AccordionContent body (Some c) = Ok [])
  ∧ (open c = true →
       AccordionContent body (Some c) =
         (kids ← render_all (Some c) body; Ok [Elem "div" false None kids]))
  ∧ (∀ (w : world) (e : event) (b b' : bool),
       reachable w →
       opens w !! k = Some b → opens (step w e) !! k = Some b' → b ≠ b' →
       e = Click (Toggle k) ∧ clickable (Toggle k) (view w) = true ∧ b' = flip b).
Proof.
  split; [done|]. split; [intros σ; apply item_open_mount|].
  split; [intros w e b; apply appear_closed|].
  split; [by intros Hc; unfold AccordionContent; rewrite Hc|].
  split; [by intros Hc; unfold AccordionContent; rewrite Hc|].
  intros w e b b'. apply flag_changes_by_trigger.
Qed.

(** C7. Toggling one disclosure instance leaves the open flag of every other
    instance as it was: in the store of instances, in what the other instance
    renders with, and in the running application. *)
Theorem disclosure_instances_independent (σ : store) (k j : nat) (w : world) :
  j ≠ k →
  toggle_item k σ !! j = σ !! j
  ∧ item_open (toggle_item k σ) j = item_open σ j
  ∧ opens (step w (Click (Toggle k))) !! j = opens w !! j.
Proof.
  intros Hne. split; [by apply toggle_item_other|].
  split; [unfold item_open; by rewrite toggle_item_other|].
  destruct (clickable (Toggle k) (view w)) eqn:Hc.
  - rewrite step_toggle by done. simpl. by apply toggle_item_other.
  - simpl. by rewrite Hc.
Qed.

(** C8. A trigger or a content region rendered outside a disclosure instance
    throws at render time, whatever its children: under no context, at the
    root, and as the child of an [Accordion] container, which is not an
    instance and provides no context. *)
Theorem disclosure_parts_need_item (children : list elem) :
  AccordionTrigger children None =
    Throw (Error "AccordionTrigger must be used within an AccordionItem")
  ∧ AccordionContent children None =
    Throw (Error "AccordionContent must be used within an AccordionItem")
  ∧ render (Ok (AccordionTrigger children)) =
    Throw (Error "AccordionTrigger must be used within an AccordionItem")
  ∧ render (Ok (AccordionContent children)) =
    Throw (Error "AccordionContent must be used within an AccordionItem")
  ∧ render (Ok (Accordion [AccordionTrigger children])) =
    Throw (Error "AccordionTrigger must be used within an AccordionItem")
  ∧ render (Ok (Accordion [AccordionContent children])) =
    Throw (Error "AccordionContent must be used within an AccordionItem").
Proof. repeat split; reflexivity. Qed.

(** * The report viewer: claims C1 to C4, C9 and C10 *)

Lemma reachable_index_in_range (w : world) :
  reachable w → reports w ≠ [] →
  (0 ≤ index w ≤ Z.of_nat (length (reports w)) - 1)%Z.
Proof. intros Hre. apply reachable_inv in Hre as (_ & _ & _ & H & _). exact H. Qed.

Lemma click_prev_moves (w : world) :
  clickable HandlePrev (view w) = true →
  index (step w (Click HandlePrev)) = (index w - 1)%Z.
Proof.
  intros Hc. unfold step. rewrite Hc.
  destruct (commit_fields w (run_action HandlePrev w)) as (_ & -> & _).
  apply clickable_inv in Hc as [Hs Hc]. apply page_shown_in_range in Hs.
  simpl in *. unfold prev_disabled in Hc. injection Hc as Hc. apply Z.eqb_neq in Hc.
  unfold handlePrev. lia.
Qed.

Lemma click_next_moves (w : world) :
  clickable HandleNext (view w) = true →
  index (step w (Click HandleNext)) = (index w + 1)%Z.
Proof.
  intros Hc. unfold step. rewrite Hc.
  destruct (commit_fields w (run_action HandleNext w)) as (_ & -> & _).
  apply clickable_inv in Hc as [Hs Hc]. apply page_shown_in_range in Hs.
  simpl in *. unfold next_disabled in Hc. injection Hc as Hc. apply Z.eqb_neq in Hc.
  unfold handleNext. lia.
Qed.

(** C2. "Previous" decrements the index with floor 0 and "Next" increments it
    with ceiling length − 1: as updaters of the index, and as clicks in the
    running application, where a click on the enabled control takes the index
    one down, respectively one up, and over well-shaped records changes
    nothing else.  At its boundary each is a no-op, its control is rendered
    disabled (in the navigation block, and on every page that renders) and a
    click on it changes nothing; and the index stays within [0, length − 1]
    under every sequence of navigation operations, and in every world the
    application reaches once records are loaded. *)
Theorem navigation_clamped (rs : list value) (i : Z) (ops : list nav) :
  let last := (Z.of_nat (length rs) - 1)%Z in
  (0 ≤ i ≤ last)%Z →
  handlePrev i = (if decide (i = 0) then 0 else i - 1)%Z
  ∧ handleNext rs i = (if decide (i = last) then last else i + 1)%Z
  ∧ (∃ ns, nav_buttons rs i None = Ok ns
           ∧ find_controls HandlePrev ns = Some (bool_decide (i = 0%Z))
           ∧ find_controls HandleNext ns = Some (bool_decide (i = last)))
  ∧ (∀ (σ : store) (ns : list node),
       truthy (at_index rs i) = true → render (ReportViewer rs i σ) = Ok ns →
       find_controls HandlePrev ns = Some (bool_decide (i = 0%Z))
       ∧ find_controls HandleNext ns = Some (bool_decide (i = last)))
  ∧ (∀ w : world, index w = 0%Z → step w (Click HandlePrev) = w)
  ∧ (∀ w : world,
       index w = (Z.of_nat (length (reports w)) - 1)%Z → step w (Click HandleNext) = w)
  ∧ (∀ w : world,
       clickable HandlePrev (view w) = true →
       index (step w (Click HandlePrev)) = (index w - 1)%Z)
  ∧ (∀ w : world,
       clickable HandleNext (view w) = true →
       index (step w (Click HandleNext)) = (index w + 1)%Z)
  ∧ (∀ w : world,
       reports w = rs → index w = i → forallb well_shaped rs = true →
       (i ≠ 0%Z → step w (Click HandlePrev) = set_index (i - 1) w)
       ∧ (i ≠ last → step w (Click HandleNext) = set_index (i + 1) w))
  ∧ (0 ≤ foldl (navigate rs) i ops ≤ last)%Z
  ∧ (∀ es : list event,
       let w := run mount es in
       reports w ≠ [] → (0 ≤ index w ≤ Z.of_nat (length (reports w)) - 1)%Z).
Proof.
  intros last Hi.
  split; [unfold handlePrev; case_decide; lia|].
  split; [unfold handleNext; case_decide; lia|].
  assert (Hp : prev_disabled i = bool_decide (i = 0%Z)).
  { unfold prev_disabled. destruct (Z.eqb_spec i 0);
      [by rewrite bool_decide_eq_true_2 | by rewrite bool_decide_eq_false_2]. }
  assert (Hn : next_disabled rs i = bool_decide (i = last)).
  { unfold next_disabled. fold last. destruct (Z.eqb_spec i last);
      [by rewrite bool_decide_eq_true_2 | by rewrite bool_decide_eq_false_2]. }
  split.
  { exists [nav_nodes rs i]. rewrite <- Hp, <- Hn. by repeat split. }
  split.
  { intros σ ns Ht Hv. rewrite <- Hp, <- Hn.
    split; by rewrite (ReportViewer_controls _ _ _ _ _ Ht Hv). }
  split; [apply click_prev_at_first|]. split; [apply click_next_at_last|].
  split; [apply click_prev_moves|]. split; [apply click_next_moves|].
  split.
  { intros w <- <- Hall. split; intros Hne.
    - apply click_prev_inside; [done|]. lia.
    - apply click_next_inside; [done|]. subst last. lia. }
  split; [by apply navigate_all_in_range|].
  intros es w. apply reachable_index_in_range, reachable_run, reachable_mount.
Qed.

(** C3. When the fetch fails the failure is logged, and from then on, whatever
    events follow, the array stays empty, no further request is issued, and
    the viewer renders its loading placeholder and nothing else. *)
Theorem fetch_failure_stuck_loading (err : string) (es : list event) :
  let failed := step mount (FetchRejected err) in
  let w := run failed es in
  console failed = [("Failed to load JSON:", err)]
  ∧ w = failed
  ∧ reports w = []
  ∧ pending w = false
  ∧ fetches w = 1
  ∧ view w = Ok [Elem "p" false None [Text "Loading..."]].
Proof.
  intros failed w. assert (Hw : w = failed) by by apply run_settled_empty.
  rewrite Hw. repeat split.
Qed.

(** C10. When the fetch succeeds with an empty array the viewer renders the
    loading placeholder, whatever events follow; the placeholder is what is
    shown whenever no record exists at the current index; and the rendered
    viewer is the same as after a failed fetch. *)
Theorem empty_load_stuck_loading (err : string) (es : list event) :
  let loaded := run (step mount (FetchResolved [])) es in
  let failed := run (step mount (FetchRejected err)) es in
  view loaded = Ok [Elem "p" false None [Text "Loading..."]]
  ∧ reports loaded = []
  ∧ view loaded = view failed
  ∧ (∀ w : world,
       at_index (reports w) (index w) = Undefined →
       view w = Ok [Elem "p" false None [Text "Loading..."]]).
Proof.
  intros loaded failed.
  assert (Hl : loaded = step mount (FetchResolved [])) by by apply run_settled_empty.
  assert (Hf : failed = step mount (FetchRejected err)) by by apply run_settled_empty.
  rewrite Hl, Hf. repeat split.
  intros w Hu. apply view_loading. unfold page_shown. by rewrite Hu.
Qed.

(** C9. When the fetch delivers a non-empty array whose first record is well
    shaped, the viewer is at index 0 (where it started) and the page it
    renders has the first record's file name as its title. *)
Theorem first_record_shown_on_load (r : value) (rest : list value) :
  well_shaped r = true →
  let w := step mount (FetchResolved (r :: rest)) in
  index mount = 0%Z
  ∧ index w = 0%Z
  ∧ reports w = r :: rest
  ∧ ∃ ns title,
      view w = Ok ns
      ∧ find_tags "h1" ns = Some title
      ∧ render_child (field r "file_name") = Ok title
      ∧ (∀ s, field r "file_name" = Str s → title = [Text s]).
Proof.
  intros Hw w. split; [done|]. split; [done|]. split; [done|].
  assert (Hat : at_index (reports w) (index w) = r) by reflexivity.
  assert (Hws : well_shaped (at_index (reports w) (index w)) = true) by by rewrite Hat.
  destruct (ReportViewer_safe _ _ (opens w) Hws) as [ns Hv].
  destruct (ReportViewer_title _ _ _ _ (well_shaped_truthy _ Hws) Hv)
    as (title & Htag & Htitle).
  rewrite Hat in Htitle. exists ns, title. repeat split; try done.
  intros s Hs. rewrite Hs in Htitle. by injection Htitle as <-.
Qed.

Lemma next_prev_inside (w : world) :
  forallb well_shaped (reports w) = true →
  (0 ≤ index w < Z.of_nat (length (reports w)) - 1)%Z →
  step (step w (Click HandleNext)) (Click HandlePrev) = w.
Proof.
  intros Hall Hi. rewrite click_next_inside by done.
  rewrite click_prev_inside; [|by destruct w|destruct w; simpl in *; lia].
  rewrite set_index_twice. replace (index (set_index (index w + 1) w) - 1)%Z with (index w).
  - apply set_index_same.
  - destruct w; simpl. lia.
Qed.

(** C1, as the code has it. For every array and every in-range index [i]
    other than the last index of an array of two or more records, "Next"
    followed by "Previous" returns to index [i]; in the running application
    over well-shaped records the two clicks return the viewer to the very
    state it was in, and the title then displayed is the file name of the
    record at the resulting index. *)
Theorem next_then_prev_round_trip (rs : list value) (i : Z) :
  let n := Z.of_nat (length rs) in
  (0 ≤ i < n)%Z →
  (i + 1 < n ∨ n = 1)%Z →
  handlePrev (handleNext rs i) = i
  ∧ ∀ w : world,
      reports w = rs → index w = i → forallb well_shaped rs = true →
      let w' := step (step w (Click HandleNext)) (Click HandlePrev) in
      index w' = i
      ∧ w' = w
      ∧ ∃ ns title,
          view w' = Ok ns
          ∧ find_tags "h1" ns = Some title
          ∧ render_child (field (at_index rs (index w')) "file_name") = Ok title.
Proof.
  intros n Hi Hcase. split; [unfold handlePrev, handleNext; lia|].
  intros w <- <- Hall w'.
  assert (Hw' : w' = w).
  { subst w'. destruct Hcase as [Hin|Hone].
    - apply next_prev_inside; [done|lia].
    - rewrite click_next_at_last by lia. apply click_prev_at_first. lia. }
  rewrite Hw'. split; [done|]. split; [done|].
  assert (Hws : well_shaped (at_index (reports w) (index w)) = true)
    by by apply at_index_Forall.
  destruct (ReportViewer_safe _ _ (opens w) Hws) as [ns Hv].
  destruct (ReportViewer_title _ _ _ _ (well_shaped_truthy _ Hws) Hv)
    as (title & Htag & Htitle).
  by exists ns, title.
Qed.

(** ** Missing fields *)

Lemma list_section_absent σ k title fld item report :
  get report fld = Ok Undefined →
  ∃ ns, render (list_section σ k title fld item report) = Ok ns
        ∧ count_tags "li" ns = 0
        ∧ (item_open σ k = true → find_tags "ul" ns = Some []).
Proof.
  intros Hg. unfold render, list_section. rewrite Hg. cbn [mbind res_bind optional_map].
  destruct (item_open σ k) eqn:Ho.
  - rewrite AccordionItem_open by done. eexists. split; [reflexivity|]. by split.
  - rewrite AccordionItem_closed by done. eexists. split; [reflexivity|]. by split.
Qed.

Lemma own_without (name : string) (fields : list (string * value)) (f : string) :
  own (without name fields) f = if decide (name = f) then Undefined else own fields f.
Proof.
  unfold without. induction fields as [|[k v] fs IH]; [by case_decide|].
  destruct (decide (k = name)) as [->|Hk].
  - rewrite filter_cons_False by (simpl; intros H; by apply H).
    rewrite IH. case_decide; [done|]. simpl.
    by destruct (String.eqb_spec name f).
  - rewrite filter_cons_True by done. simpl.
    destruct (String.eqb_spec k f) as [->|Hf]; [by rewrite decide_False|done].
Qed.

Lemma field_without (P : value → bool) name fields f :
  P Undefined = true →
  P (field (Obj fields) f) = true → P (field (Obj (without name fields)) f) = true.
Proof.
  unfold field. simpl. rewrite own_without. by case_decide.
Qed.

(** Removing a field from a well-shaped record leaves it well shaped. *)
Lemma well_shaped_without name fields :
  well_shaped (Obj fields) = true → well_shaped (Obj (without name fields)) = true.
Proof.
  unfold well_shaped, scalar_fields. cbn [forallb]. intros H.
  repeat (let Hc := fresh "Hc" in apply andb_prop in H as [H Hc]).
  repeat (let Hs := fresh "Hs" in apply andb_prop in Hc7 as [Hs Hc7]).
  repeat (apply andb_true_intro; split); try done;
    by apply (field_without _ name fields).
Qed.

Lemma collection_sections_absent σ report :
  Forall (λ '(fld, k, sec),
            get report fld = Ok Undefined →
            ∃ ns, render (sec report) = Ok ns
                  ∧ count_tags "li" ns = 0
                  ∧ (item_open σ k = true → find_tags "ul" ns = Some []))
         (collection_sections σ).
Proof.
  unfold collection_sections, section_ThirdPartyServiceProvider, section_subservice,
    section_services, section_control_numbers, section_control_objectives,
    section_control_descriptions, section_reports_inscope, section_cuecs.
  repeat (apply Forall_cons; split; [apply list_section_absent|]).
  apply Forall_nil_2.
Qed.

(** C4. For every record that lacks the field of a collection section, the
    section renders without error and with no list item, its list being
    empty when the section is open; a missing scalar field renders as
    nothing: an empty title, a summary line holding its label alone; and no
    field is required: a well-shaped record from which any one field is
    removed still renders. *)
Theorem absent_field_renders_empty (σ : store) (report : value) :
  truthy report = true →
  (∀ fld k sec,
     (fld, k, sec) ∈ collection_sections σ → get report fld = Ok Undefined →
     ∃ ns, render (sec report) = Ok ns
           ∧ count_tags "li" ns = 0
           ∧ (item_open σ k = true → find_tags "ul" ns = Some []))
  ∧ (∀ fld label, fld ∈ scalar_fields → get report fld = Ok Undefined →
       render (Ok (child (field report fld))) = Ok []
       ∧ render (Ok (summary_line label (field report fld))) =
           Ok [Elem "p" false None [Elem "strong" false None [Text label]; Text " "]])
  ∧ (get report "file_name" = Ok Undefined →
     ∀ rs i, render (page_header rs i report) =
               Ok [Elem "div" false None [Elem "h1" false None []; nav_nodes rs i]])
  ∧ (∀ fields name rs i,
       report = Obj fields → well_shaped report = true →
       at_index rs i = Obj (without name fields) →
       ∃ ns, render (ReportViewer rs i σ) = Ok ns).
Proof.
  intros Ht. split; [|split; [|split]].
  - intros fld k sec Hin Hg.
    pose proof (collection_sections_absent σ report) as Hall.
    rewrite Forall_forall in Hall. by apply (Hall (fld, k, sec)).
  - intros fld label _ Hg. unfold field. by rewrite Hg.
  - intros Hg rs i. unfold page_header. by rewrite Hg.
  - intros fields name rs i -> Hw Hat. apply ReportViewer_safe.
    rewrite Hat. by apply well_shaped_without.
Qed.

(** * The theorems at concrete documents *)

Import Samples.

(** A document of one record: the title and the auditor are shown, "Next" is
    disabled, and the "Control Numbers" section, once opened, lists exactly
    the two numbers. *)
Example single_record_scenario :
  let w := step mount (FetchResolved [report_a]) in
  let w' := step w (Click (Toggle 4)) in
  (∃ ns, view w = Ok ns
         ∧ find_tags "h1" ns = Some [Text "A.pdf"]
         ∧ find_tags "p" ns =
             Some [Elem "strong" false None [Text "Auditor:"]; Text " "; Text "Acme LLP"]
         ∧ find_controls HandleNext ns = Some true
         ∧ count_tags "li" ns = 0)
  ∧ (∃ ns, view w' = Ok ns
           ∧ find_tags "ul" ns =
               Some [ Elem "li" false None [Elem "strong" false None [Text "C1"]];
                      Elem "li" false None [Elem "strong" false None [Text "C2"]] ]
           ∧ count_tags "li" ns = 2).
Proof. split; eexists; vm_compute; repeat split. Qed.

Lemma next_then_prev_round_trip_witness :
  (0 ≤ index loaded_three < Z.of_nat (length (reports loaded_three)))%Z
  ∧ (index loaded_three + 1 < Z.of_nat (length (reports loaded_three)))%Z
  ∧ forallb well_shaped (reports loaded_three) = true
  ∧ step (step loaded_three (Click HandleNext)) (Click HandlePrev) = loaded_three.
Proof.
  assert (Hi : (0 ≤ index loaded_three < Z.of_nat (length (reports loaded_three)))%Z)
    by (simpl; lia).
  assert (Hin : (index loaded_three + 1 < Z.of_nat (length (reports loaded_three)))%Z)
    by (simpl; lia).
  assert (Hall : forallb well_shaped (reports loaded_three) = true) by reflexivity.
  destruct (next_then_prev_round_trip (reports loaded_three) (index loaded_three)
              Hi (or_introl Hin)) as (_ & H).
  destruct (H loaded_three eq_refl eq_refl Hall) as (_ & Hw & _).
  auto.
Defined.

(** C1, as stated, fails at the last record of a longer array: from index 1 of
    two records "Next" is a no-op and "Previous" then moves to index 0, whose
    title is shown. *)
Lemma next_then_prev_leaves_last_record :
  let w := step loaded_two (Click HandleNext) in
  let w' := step (step w (Click HandleNext)) (Click HandlePrev) in
  reports w = [report_a; report_b]
  ∧ index w = 1%Z
  ∧ (0 ≤ index w < Z.of_nat (length (reports w)))%Z
  ∧ handlePrev (handleNext (reports w) (index w)) = 0%Z
  ∧ handlePrev (handleNext (reports w) (index w)) ≠ index w
  ∧ index w' = 0%Z
  ∧ index w' ≠ index w
  ∧ find_tags "h1" (match view w' with Ok ns => ns | Throw _ => [] end)
    = Some [Text "A.pdf"].
Proof.
  vm_compute. repeat split; try discriminate; reflexivity.
Qed.

Lemma navigation_clamped_witness :
  let rs := reports loaded_three in
  (0 ≤ index loaded_three ≤ Z.of_nat (length rs) - 1)%Z
  ∧ forallb well_shaped rs = true
  ∧ step loaded_three (Click HandleNext) = set_index 1 loaded_three
  ∧ index (step loaded_three (Click HandleNext)) = 1%Z
  ∧ (0 ≤ foldl (navigate rs) (index loaded_three) [Next; Next; Next; Previous]
     ≤ Z.of_nat (length rs) - 1)%Z.
Proof.
  intros rs.
  assert (Hi : (0 ≤ index loaded_three ≤ Z.of_nat (length rs) - 1)%Z) by (simpl; lia).
  assert (Hall : forallb well_shaped rs = true) by reflexivity.
  assert (Hne : index loaded_three ≠ (Z.of_nat (length rs) - 1)%Z) by (simpl; lia).
  destruct (navigation_clamped rs (index loaded_three) [Next; Next; Next; Previous] Hi)
    as (_ & _ & _ & _ & _ & _ & _ & _ & Hclick & Hfold & _).
  destruct (Hclick loaded_three eq_refl eq_refl Hall) as (_ & Hnext).
  split; [exact Hi|]. split; [exact Hall|]. split; [exact (Hnext Hne)|].
  split; [rewrite (Hnext Hne); reflexivity|]. exact Hfold.
Defined.

Lemma absent_field_renders_empty_witness :
  truthy report_c = true
  ∧ get report_c "ThirdPartyServiceProvider" = Ok Undefined
  ∧ ∃ ns, render (section_ThirdPartyServiceProvider ∅ report_c) = Ok ns
          ∧ count_tags "li" ns = 0.
Proof.
  assert (Ht : truthy report_c = true) by reflexivity.
  assert (Hg : get report_c "ThirdPartyServiceProvider" = Ok Undefined) by reflexivity.
  destruct (absent_field_renders_empty ∅ report_c Ht) as (Hsec & _).
  destruct (Hsec "ThirdPartyServiceProvider" 1 (section_ThirdPartyServiceProvider ∅))
    as (ns & Hns & Hli & _); [left|exact Hg|].
  eauto.
Defined.

Lemma toggle_twice_restores_witness :
  is_ok (view (step loaded_two (Click (Toggle 4)))) = true
  ∧ step (step loaded_two (Click (Toggle 4))) (Click (Toggle 4)) = loaded_two.
Proof.
  assert (Hok : is_ok (view (step loaded_two (Click (Toggle 4)))) = true)
    by (vm_compute; reflexivity).
  destruct (toggle_twice_restores ∅ 4 false []) as (_ & _ & _ & _ & H).
  auto.
Defined.

Lemma disclosure_state_machine_witness :
  reachable loaded_two
  ∧ opens loaded_two !! 4 = Some false
  ∧ opens (step loaded_two (Click (Toggle 4))) !! 4 = Some true
  ∧ clickable (Toggle 4) (view loaded_two) = true.
Proof.
  assert (Hre : reachable loaded_two) by (apply reachable_step, reachable_mount).
  assert (Hb : opens loaded_two !! 4 = Some false) by (vm_compute; reflexivity).
  assert (Hb' : opens (step loaded_two (Click (Toggle 4))) !! 4 = Some true)
    by (vm_compute; reflexivity).
  destruct (disclosure_state_machine 4 {| open := false; toggle := Toggle 4 |} [])
    as (_ & _ & _ & _ & _ & H).
  destruct (H loaded_two (Click (Toggle 4)) false true Hre Hb Hb') as (_ & Hc & _);
    [discriminate|].
  auto.
Defined.

Lemma disclosure_instances_independent_witness :
  3 ≠ 4
  ∧ opens (step loaded_two (Click (Toggle 4))) !! 3 = opens loaded_two !! 3.
Proof.
  assert (Hne : 3 ≠ 4) by discriminate.
  destruct (disclosure_instances_independent ∅ 4 3 loaded_two Hne) as (_ & _ & H).
  auto.
Defined.

Lemma first_record_shown_on_load_witness :
  well_shaped report_a = true
  ∧ ∃ ns, view loaded_two = Ok ns ∧ find_tags "h1" ns = Some [Text "A.pdf"].
Proof.
  assert (Hw : well_shaped report_a = true) by reflexivity.
  destruct (first_record_shown_on_load report_a [report_b] Hw)
    as (_ & _ & _ & ns & title & Hv & Htag & _ & Hs).
  split; [exact Hw|]. exists ns. split; [exact Hv|].
  rewrite <- (Hs "A.pdf" eq_refl). exact Htag.
Defined.

Lemma empty_load_stuck_loading_witness :
  at_index (reports mount) (index mount) = Undefined
  ∧ view mount = Ok [Elem "p" false None [Text "Loading..."]].
Proof.
  assert (Hu : at_index (reports mount) (index mount) = Undefined) by reflexivity.
  destruct (empty_load_stuck_loading "" []) as (_ & _ & _ & H).
  auto.
Defined.

(** * Further properties of the running application *)

Import Shell Shapes MoreSamples.

Lemma click_keeps_document (w : world) (a : action) :
  reports (step w (Click a)) = reports w
  ∧ pending (step w (Click a)) = pending w
  ∧ fetches (step w (Click a)) = fetches w
  ∧ console (step w (Click a)) = console w.
Proof.
  simpl. destruct (clickable a (view w)); [|done].
  destruct (commit_fields w (run_action a w)) as (-> & _ & -> & -> & -> & _).
  by destruct a.
Qed.

Lemma step_settled (w : world) (e : event) :
  pending w = false →
  reports (step w e) = reports w ∧ pending (step w e) = false
  ∧ fetches (step w e) = fetches w ∧ console (step w e) = console w.
Proof.
  intros Hp. destruct e as [data|err|a].
  - simpl. by rewrite Hp.
  - simpl. by rewrite Hp.
  - destruct (click_keeps_document w a) as (-> & -> & -> & ->). done.
Qed.

Lemma run_settled (w : world) (es : list event) :
  pending w = false →
  reports (run w es) = reports w ∧ pending (run w es) = false
  ∧ fetches (run w es) = fetches w ∧ console (run w es) = console w.
Proof.
  revert w. induction es as [|e es IH]; intros w Hp; [done|].
  destruct (step_settled w e Hp) as (Hr & Hp' & Hf & Hc).
  simpl. destruct (IH (step w e) Hp') as (-> & -> & -> & ->). done.
Qed.

Lemma clickable_view_ok (a : action) (w : world) :
  clickable a (view w) = true → is_ok (view w) = true.
Proof. unfold clickable. by destruct (view w). Qed.

Lemma step_dead_end (w : world) (e : event) :
  pending w = false → page_shown w = false ∨ is_ok (view w) = false → step w e = w.
Proof.
  intros Hp Hdead. destruct e as [data|err|a]; simpl; rewrite ?Hp; try done.
  destruct (clickable a (view w)) eqn:Hc; [|done].
  pose proof (clickable_view_ok _ _ Hc) as Hok.
  apply clickable_inv in Hc as [Hs _]. destruct Hdead; congruence.
Qed.

(** X2. Once the fetch has settled, a world whose current record is falsy
    ([null], [0], an empty string, [false], or none at all) or whose page
    fails to render is a dead end: no control is on screen, and no sequence
    of events changes the world any more. *)
Theorem dead_end (w : world) (es : list event) :
  pending w = false →
  page_shown w = false ∨ is_ok (view w) = false →
  run w es = w.
Proof.
  intros Hp Hdead. induction es as [|e es IH]; simpl; [done|].
  by rewrite step_dead_end.
Qed.

(** X3. The index moves only through an enabled navigation control, and then
    by exactly one: any event that changes it is a click on "Previous" that
    takes it one down or a click on "Next" that takes it one up. *)
Theorem index_moves_one_step (w : world) (e : event) :
  index (step w e) ≠ index w →
  (e = Click HandlePrev ∧ index (step w e) = (index w - 1)%Z ∧ (0 < index w)%Z)
  ∨ (e = Click HandleNext ∧ index (step w e) = (index w + 1)%Z
     ∧ (index w + 1 < Z.of_nat (length (reports w)))%Z).
Proof.
  destruct e as [data|err|a]; simpl.
  - destruct (pending w); [|done].
    destruct (commit_fields w (settle (set_reports data w))) as (_ & -> & _). done.
  - by destruct (pending w).
  - destruct (clickable a (view w)) eqn:Hc; [|done].
    destruct (commit_fields w (run_action a w)) as (_ & -> & _).
    apply clickable_inv in Hc as [Hs Hc]. apply page_shown_in_range in Hs.
    destruct a as [| |k]; simpl in *; [| |done].
    + unfold prev_disabled in Hc. injection Hc as Hc. apply Z.eqb_neq in Hc.
      intros _. left. unfold handlePrev. repeat split; lia.
    + unfold next_disabled in Hc. injection Hc as Hc. apply Z.eqb_neq in Hc.
      intros _. right. unfold handleNext. repeat split; lia.
Qed.

(** X4. Navigation does not touch the disclosure sections: after a click on
    "Previous" or "Next" that leaves a record page on screen, every section is
    open or closed exactly as before, although another record is shown. *)
Theorem sections_keep_state_across_records (w : world) (a : action) :
  a = HandlePrev ∨ a = HandleNext →
  page_shown (step w (Click a)) = true →
  opens (step w (Click a)) = opens w.
Proof.
  intros Ha. simpl. destruct (clickable a (view w)) eqn:Hc; [|done].
  apply clickable_inv in Hc as [Hs _]. intros Hs'.
  destruct (commit_fields w (run_action a w)) as (_ & _ & _ & _ & _ & Hps).
  rewrite Hps in Hs'. rewrite opens_commit, Hs, Hs'. by destruct Ha as [-> | ->].
Qed.

(** ** Navigation *)

Lemma prev_next_inside (w : world) :
  forallb well_shaped (reports w) = true →
  (0 < index w ≤ Z.of_nat (length (reports w)) - 1)%Z →
  step (step w (Click HandlePrev)) (Click HandleNext) = w.
Proof.
  intros Hall Hi. rewrite click_prev_inside by done.
  rewrite click_next_inside; [|by destruct w|destruct w; simpl in *; lia].
  rewrite set_index_twice. replace (index (set_index (index w - 1) w) + 1)%Z with (index w).
  - apply set_index_same.
  - destruct w; simpl. lia.
Qed.

(** X5. The mirror image of the round trip "Next, Previous": "Previous"
    followed by "Next" returns to index [i] from every in-range index except
    the first index of an array of two or more records, where "Previous" is a
    no-op and "Next" then moves on to index 1; over well-shaped records the
    two clicks restore the whole state of the viewer. *)
Theorem prev_then_next_round_trip (rs : list value) (i : Z) :
  let n := Z.of_nat (length rs) in
  (0 ≤ i < n)%Z →
  handleNext rs (handlePrev i) = (if decide (i = 0 ∧ 2 ≤ n)%Z then 1 else i)%Z
  ∧ ∀ w : world,
      reports w = rs → index w = i → forallb well_shaped rs = true →
      (1 ≤ i ∨ n = 1)%Z →
      step (step w (Click HandlePrev)) (Click HandleNext) = w.
Proof.
  intros n Hi. split; [unfold handlePrev, handleNext; case_decide; lia|].
  intros w <- <- Hall [Hpos|Hone].
  - apply prev_next_inside; [done|lia].
  - rewrite click_prev_at_first by lia. apply click_next_at_last. lia.
Qed.

Lemma run_replicate_S (w : world) (e : event) (k : nat) :
  run w (replicate (S k) e) = run (step w e) (replicate k e).
Proof. reflexivity. Qed.

Lemma repeated_next (k : nat) :
  ∀ w : world,
    forallb well_shaped (reports w) = true →
    (0 ≤ index w ≤ Z.of_nat (length (reports w)) - 1)%Z →
    run w (replicate k (Click HandleNext)) =
      set_index (Z.min (index w + Z.of_nat k) (Z.of_nat (length (reports w)) - 1)) w.
Proof.
  induction k as [|k IH]; intros w Hall Hi.
  - simpl. rewrite Z.add_0_r, Z.min_l by lia. symmetry. apply set_index_same.
  - rewrite run_replicate_S.
    destruct (decide (index w = Z.of_nat (length (reports w)) - 1)%Z) as [Hlast|Hin].
    + rewrite click_next_at_last by done. rewrite IH by done. f_equal. lia.
    + rewrite click_next_inside by (done || lia).
      rewrite IH; [|by destruct w|destruct w; simpl in *; lia].
      rewrite set_index_twice. destruct w; simpl in *. f_equal. lia.
Qed.

Lemma repeated_prev (k : nat) :
  ∀ w : world,
    forallb well_shaped (reports w) = true →
    (0 ≤ index w ≤ Z.of_nat (length (reports w)) - 1)%Z →
    run w (replicate k (Click HandlePrev)) =
      set_index (Z.max (index w - Z.of_nat k) 0) w.
Proof.
  induction k as [|k IH]; intros w Hall Hi.
  - simpl. rewrite Z.sub_0_r, Z.max_l by lia. symmetry. apply set_index_same.
  - rewrite run_replicate_S.
    destruct (decide (index w = 0)%Z) as [Hfirst|Hin].
    + rewrite click_prev_at_first by done. rewrite IH by done. f_equal. lia.
    + rewrite click_prev_inside by (done || lia).
      rewrite IH; [|by destruct w|destruct w; simpl in *; lia].
      rewrite set_index_twice. destruct w; simpl in *. f_equal. lia.
Qed.

(** X6. Over well-shaped records every record can be reached: [k] clicks on
    "Next" move the viewer from index [i] to index [min (i + k) (length − 1)],
    [k] clicks on "Previous" to index [max (i − k) 0], and nothing else of the
    state changes. *)
Theorem repeated_clicks_reach_every_record (w : world) (k : nat) :
  forallb well_shaped (reports w) = true →
  (0 ≤ index w ≤ Z.of_nat (length (reports w)) - 1)%Z →
  run w (replicate k (Click HandleNext)) =
    set_index (Z.min (index w + Z.of_nat k) (Z.of_nat (length (reports w)) - 1)) w
  ∧ run w (replicate k (Click HandlePrev)) =
    set_index (Z.max (index w - Z.of_nat k) 0) w.
Proof. intros Hall Hi. split; [by apply repeated_next | by apply repeated_prev]. Qed.

Lemma reachable_after_load (data : list value) (es : list event) :
  let w := run (step mount (FetchResolved data)) es in
  reachable w ∧ reports w = data ∧ pending w = false.
Proof.
  intros w. split; [apply reachable_run, reachable_step, reachable_mount|].
  destruct (run_settled (step mount (FetchResolved data)) es eq_refl) as (Hr & Hp & _).
  split; [|done]. subst w. rewrite Hr. reflexivity.
Qed.

(** X7. A document of well-shaped records never brings the viewer down:
    after it has loaded, whatever the user clicks and in whatever order, the
    array is the loaded one, the viewer renders without error, and (the
    document not being empty) a record page is on screen. *)
Theorem well_shaped_document_never_fails (data : list value) (es : list event) :
  forallb well_shaped data = true →
  let w := run (step mount (FetchResolved data)) es in
  reports w = data
  ∧ is_ok (view w) = true
  ∧ (data ≠ [] → page_shown w = true ∧ well_shaped (at_index data (index w)) = true).
Proof.
  intros Hall w. destruct (reachable_after_load data es) as (Hre & Hr & _). fold w in Hre, Hr.
  split; [done|].
  assert (Hrec : data ≠ [] → well_shaped (at_index (reports w) (index w)) = true).
  { intros Hne. apply at_index_Forall; [by rewrite Hr|].
    apply reachable_index_in_range in Hre; [lia|by rewrite Hr]. }
  split.
  - destruct data as [|r rest].
    + rewrite view_loading; [done|]. by apply page_shown_nil.
    + destruct (ReportViewer_safe _ _ (opens w) (Hrec ltac:(done))) as [ns Hv].
      unfold view. by rewrite Hv.
  - intros Hne. specialize (Hrec Hne). split; [by apply well_shaped_truthy|].
    by rewrite <- Hr.
Qed.

(** X8. On a record page both navigation controls are disabled exactly when
    the array holds a single record; with two or more records at least one of
    them is enabled, so the user can always move. *)
Theorem both_controls_disabled_iff_single (rs : list value) (i : Z) (σ : store)
    (ns : list node) :
  truthy (at_index rs i) = true →
  render (ReportViewer rs i σ) = Ok ns →
  (find_controls HandlePrev ns = Some true ∧ find_controls HandleNext ns = Some true)
  ↔ length rs = 1.
Proof.
  intros Ht Hv.
  rewrite !(ReportViewer_controls _ _ _ _ _ Ht Hv). simpl.
  unfold prev_disabled, next_disabled.
  assert (Hi : (0 ≤ i ≤ Z.of_nat (length rs) - 1)%Z).
  { unfold at_index in Ht. destruct (Z.leb_spec 0 i); [|done].
    destruct (rs !! Z.to_nat i) eqn:Hl; [|done]. apply lookup_lt_Some in Hl. lia. }
  split.
  - intros [Hp Hn]. injection Hp as Hp. injection Hn as Hn.
    apply Z.eqb_eq in Hp, Hn. lia.
  - intros Hone. assert (i = 0)%Z as -> by lia. rewrite Hone. done.
Qed.

(** * Failures of the record page *)

(** ** Failures while the component body runs *)

Lemma ReportViewer_truthy rs i σ :
  truthy (at_index rs i) = true →
  ReportViewer rs i σ =
    (items ← build_sections (sections σ) (at_index rs i);
     Ok (el "div"
           [ el "div" [el "h1" [child (field (at_index rs i) "file_name")];
                       nav_buttons rs i];
             Card [CardContent
                     [ summary_line "Auditor:" (field (at_index rs i) "ServiceAuditor");
                       summary_line "Report Type:" (field (at_index rs i) "SOC1ReportType");
                       summary_line "Period:" (field (at_index rs i) "ReportPeriod");
                       summary_line "Opinion Date:"
                         (field (at_index rs i) "AuditorOpinionDate") ]];
             Accordion items ])).
Proof.
  intros Ht. unfold ReportViewer. cbv zeta. rewrite Ht. cbn [negb].
  by rewrite page_header_truthy, page_summary_truthy.
Qed.

Lemma get_error r name e : get r name = Throw e → e = TypeError.
Proof. destruct r; simpl; congruence. Qed.

Lemma bind_inv_Throw {A B} (f : A → res B) (m : res A) (e : error) :
  (m ≫= f) = Throw e → m = Throw e ∨ ∃ a, m = Ok a ∧ f a = Throw e.
Proof. destruct m as [a|e']; simpl; [eauto | intros [= ->]; by left]. Qed.

Ltac bind_err H :=
  repeat (apply bind_inv_Throw in H as [H | (? & _ & H)];
          [try (by apply get_error in H) | ]);
  try discriminate.

Lemma li_pair_error key val s e : li_pair key val s = Throw e → e = TypeError.
Proof. unfold li_pair. intros H. bind_err H. Qed.

Lemma li_report_error r e : li_report r = Throw e → e = TypeError.
Proof. unfold li_report. intros H. bind_err H. Qed.

Lemma map_items_error (f : value → res elem) (items : list value) (e : error) :
  (∀ x e, f x = Throw e → e = TypeError) → map_items f items = Throw e → e = TypeError.
Proof.
  intros Hf. induction items as [|x r IH]; simpl; [discriminate|]. intros H.
  apply bind_inv_Throw in H as [H | (? & _ & H)]; [by eapply Hf|].
  apply bind_inv_Throw in H as [H | (? & _ & H)]; [by apply IH | discriminate].
Qed.

Lemma list_section_error σ k title fld item report e :
  (∀ x e, item x = Throw e → e = TypeError) →
  list_section σ k title fld item report = Throw e → e = TypeError.
Proof.
  intros Hitem. unfold list_section. intros H.
  apply bind_inv_Throw in H as [H | (v & _ & H)]; [by apply get_error in H|].
  apply bind_inv_Throw in H as [H | (? & _ & H)]; [|discriminate].
  destruct v; simpl in H; try congruence. by eapply map_items_error.
Qed.

(** Whatever goes wrong in a section while the body runs is a [TypeError]. *)
Lemma sections_only_TypeError σ report :
  Forall (λ f, ∀ e, f report = Throw e → e = TypeError) (sections σ).
Proof.
  unfold sections. repeat (apply Forall_cons; split); try apply Forall_nil_2; intros e H.
  - unfold section_AuditorsOpinion in H. bind_err H.
  - eapply list_section_error; [|exact H]. discriminate.
  - eapply list_section_error; [|exact H]. discriminate.
  - eapply list_section_error; [|exact H]. apply li_pair_error.
  - eapply list_section_error; [|exact H]. discriminate.
  - eapply list_section_error; [|exact H]. apply li_pair_error.
  - eapply list_section_error; [|exact H]. apply li_pair_error.
  - eapply list_section_error; [|exact H]. apply li_report_error.
  - unfold section_control_exception in H. bind_err H.
  - eapply list_section_error; [|exact H]. apply li_pair_error.
Qed.

Lemma build_sections_TypeError (fs : list (value → res elem)) report :
  Forall (λ f, ∀ e, f report = Throw e → e = TypeError) fs →
  Exists (λ f, f report = Throw TypeError) fs →
  build_sections fs report = Throw TypeError.
Proof.
  intros Hall Hex. induction Hex as [f fs Hf | f fs _ IH]; simpl.
  - by rewrite Hf.
  - apply Forall_cons in Hall as [Hf Hall]. destruct (f report) as [e|err] eqn:He.
    + simpl. by rewrite IH.
    + by rewrite (Hf err eq_refl).
Qed.

Lemma build_sections_error (fs : list (value → res elem)) report e :
  Forall (λ f, ∀ e, f report = Throw e → e = TypeError) fs →
  build_sections fs report = Throw e → e = TypeError.
Proof.
  induction fs as [|f fs IH]; simpl; [discriminate|]. intros Hall H.
  apply Forall_cons in Hall as [Hf Hall].
  apply bind_inv_Throw in H as [H | (? & _ & H)]; [by apply Hf|].
  apply bind_inv_Throw in H as [H | (? & _ & H)]; [by apply IH | discriminate].
Qed.

Lemma page_throws_TypeError rs i σ :
  truthy (at_index rs i) = true →
  Exists (λ f, f (at_index rs i) = Throw TypeError) (sections σ) →
  render (ReportViewer rs i σ) = Throw TypeError.
Proof.
  intros Ht Hex. unfold render. rewrite ReportViewer_truthy by done.
  by rewrite (build_sections_TypeError _ _ (sections_only_TypeError σ _) Hex).
Qed.

Lemma list_section_not_a_list σ k title fld item report :
  truthy report = true → not_a_list (field report fld) = true →
  list_section σ k title fld item report = Throw TypeError.
Proof.
  intros Ht Hn. unfold list_section. rewrite get_truthy by done. simpl.
  by destruct (field report fld).
Qed.

Tactic Notation "at_section" integer(n) :=
  unfold sections, section_ThirdPartyServiceProvider, section_subservice,
    section_services, section_control_numbers, section_control_objectives,
    section_control_descriptions, section_reports_inscope, section_cuecs;
  do n apply Exists_cons_tl; apply Exists_cons_hd.

Lemma collection_sections_not_a_list σ report :
  truthy report = true →
  Forall (λ '(fld, k, sec),
            not_a_list (field report fld) = true →
            Exists (λ f, f report = Throw TypeError) (sections σ))
         (collection_sections σ).
Proof.
  intros Ht. unfold collection_sections.
  apply Forall_cons; split; [intros Hn; at_section 1; by apply list_section_not_a_list|].
  apply Forall_cons; split; [intros Hn; at_section 2; by apply list_section_not_a_list|].
  apply Forall_cons; split; [intros Hn; at_section 3; by apply list_section_not_a_list|].
  apply Forall_cons; split; [intros Hn; at_section 4; by apply list_section_not_a_list|].
  apply Forall_cons; split; [intros Hn; at_section 5; by apply list_section_not_a_list|].
  apply Forall_cons; split; [intros Hn; at_section 6; by apply list_section_not_a_list|].
  apply Forall_cons; split; [intros Hn; at_section 7; by apply list_section_not_a_list|].
  apply Forall_cons; split; [intros Hn; at_section 9; by apply list_section_not_a_list|].
  apply Forall_nil_2.
Qed.

(** X9. A collection field that holds something other than a list (a string,
    a number, a boolean, an object) brings the whole page down with a
    [TypeError], whether or not its section is open: [?.map] guards against a
    missing value only. *)
Theorem non_list_collection_throws (rs : list value) (i : Z) (σ : store)
    (fld : string) (k : nat) (sec : value → res elem) :
  truthy (at_index rs i) = true →
  (fld, k, sec) ∈ collection_sections σ →
  not_a_list (field (at_index rs i) fld) = true →
  render (ReportViewer rs i σ) = Throw TypeError.
Proof.
  intros Ht Hin Hn. apply page_throws_TypeError; [done|].
  pose proof (collection_sections_not_a_list σ _ Ht) as Hall.
  rewrite Forall_forall in Hall. by apply (Hall (fld, k, sec)).
Qed.

Lemma map_items_nullish_member (f : value → res elem) (items : list value) :
  (∀ x, nullish x = true → f x = Throw TypeError) →
  (∀ x e, f x = Throw e → e = TypeError) →
  existsb nullish items = true → map_items f items = Throw TypeError.
Proof.
  intros Hnull Herr. induction items as [|x r IH]; simpl; [discriminate|].
  intros H. destruct (f x) as [e|err] eqn:Hfx.
  - simpl. destruct (nullish x) eqn:Hx; [by rewrite Hnull in Hfx|].
    simpl in H. by rewrite IH.
  - by rewrite (Herr x err Hfx).
Qed.

Lemma li_pair_nullish key val x : nullish x = true → li_pair key val x = Throw TypeError.
Proof. by destruct x. Qed.

Lemma li_report_nullish x : nullish x = true → li_report x = Throw TypeError.
Proof. by destruct x. Qed.

Lemma list_section_null_member σ k title fld item report items :
  (∀ x, nullish x = true → item x = Throw TypeError) →
  (∀ x e, item x = Throw e → e = TypeError) →
  truthy report = true → field report fld = Arr items →
  existsb nullish items = true →
  list_section σ k title fld item report = Throw TypeError.
Proof.
  intros Hnull Herr Ht Hf Hex. unfold list_section. rewrite get_truthy by done.
  rewrite Hf. simpl. by rewrite map_items_nullish_member.
Qed.

(** X10. In the five sections whose items are read by property (services,
    objectives, descriptions, reports in scope, CUECs) a [null] among the
    members brings the whole page down with a [TypeError], whether or not the
    section is open: the callback reads a property of every member. *)
Theorem null_member_throws (rs : list value) (i : Z) (σ : store)
    (fld : string) (items : list value) :
  truthy (at_index rs i) = true →
  fld ∈ keyed_fields →
  field (at_index rs i) fld = Arr items →
  existsb nullish items = true →
  render (ReportViewer rs i σ) = Throw TypeError.
Proof.
  intros Ht Hin Hf Hex. apply page_throws_TypeError; [done|].
  unfold keyed_fields in Hin.
  apply elem_of_cons in Hin as [-> | Hin].
  { at_section 3. eapply list_section_null_member;
      eauto using li_pair_nullish, li_pair_error. }
  apply elem_of_cons in Hin as [-> | Hin].
  { at_section 5. eapply list_section_null_member;
      eauto using li_pair_nullish, li_pair_error. }
  apply elem_of_cons in Hin as [-> | Hin].
  { at_section 6. eapply list_section_null_member;
      eauto using li_pair_nullish, li_pair_error. }
  apply elem_of_cons in Hin as [-> | Hin].
  { at_section 7. eapply list_section_null_member;
      eauto using li_report_nullish, li_report_error. }
  apply elem_of_cons in Hin as [-> | Hin].
  { at_section 9. eapply list_section_null_member;
      eauto using li_pair_nullish, li_pair_error. }
  by apply elem_of_nil in Hin.
Qed.

(** ** Failures while the children are rendered *)

Lemma render_child_error : ∀ v e, render_child v = Throw e → e = InvalidChild.
Proof.
  fix IH 1. intros [| |b|n|s|items|fields] e; simpl; try discriminate; [|congruence].
  induction items as [|x r IHr]; [discriminate|]. intros H.
  apply bind_inv_Throw in H as [H | (? & _ & H)]; [by eapply IH|].
  apply bind_inv_Throw in H as [H | (? & _ & H)]; [by apply IHr | discriminate].
Qed.

Lemma render_child_not_renderable :
  ∀ v, renderable v = false → render_child v = Throw InvalidChild.
Proof.
  fix IH 1. intros [| |b|n|s|items|fields]; simpl; try discriminate; [|done].
  induction items as [|x r IHr]; simpl; [discriminate|]. intros H.
  destruct (renderable x) eqn:Hx.
  - destruct (renderable_render_child x Hx) as [ns ->]. simpl in *.
    by rewrite IHr.
  - by rewrite (IH x Hx).
Qed.

Lemma render_all_error ctx (es : list elem) (e : error) :
  Forall invalid_only es → render_all ctx es = Throw e → e = InvalidChild.
Proof.
  induction 1 as [|x es Hx _ IH]; simpl; [discriminate|]. intros H.
  apply bind_inv_Throw in H as [H | (? & _ & H)]; [by eapply Hx|].
  apply bind_inv_Throw in H as [H | (? & _ & H)]; [by apply IH | discriminate].
Qed.

Lemma render_all_fails ctx (es : list elem) :
  Exists (λ e, is_ok (e ctx) = false) es → is_ok (render_all ctx es) = false.
Proof.
  induction 1 as [x es Hx | x es _ IH]; simpl.
  - by destruct (x ctx).
  - destruct (x ctx); [|done]. simpl. by destruct (render_all ctx es).
Qed.

Lemma invalid_only_child (v : value) : invalid_only (child v).
Proof. intros ctx err. apply render_child_error. Qed.

Lemma invalid_only_text (s : string) : invalid_only (text s).
Proof. intros ctx err. discriminate. Qed.

Lemma invalid_only_host tag dis h (cs : list elem) :
  Forall invalid_only cs → invalid_only (host tag dis h cs).
Proof.
  intros Hcs ctx err. unfold host. intros H.
  apply bind_inv_Throw in H as [H | (? & _ & H)]; [|discriminate].
  exact (render_all_error _ _ _ Hcs H).
Qed.

Lemma invalid_only_el tag (cs : list elem) : Forall invalid_only cs → invalid_only (el tag cs).
Proof. apply invalid_only_host. Qed.

Create HintDb faults.
#[local] Hint Resolve invalid_only_child invalid_only_text invalid_only_el : faults.
#[local] Hint Constructors Forall : faults.

Lemma AccordionItem_invalid_only σ k (label body : list elem) :
  Forall invalid_only label → Forall invalid_only body →
  invalid_only (AccordionItem σ k [AccordionTrigger label; AccordionContent body]).
Proof.
  intros Hl Hb ctx err. destruct (item_open σ k) eqn:Ho.
  - rewrite AccordionItem_open by done. intros H.
    apply bind_inv_Throw in H as [H | (? & _ & H)];
      [exact (render_all_error _ _ _ Hl H)|].
    apply bind_inv_Throw in H as [H | (? & _ & H)];
      [exact (render_all_error _ _ _ Hb H)|].
    discriminate.
  - rewrite AccordionItem_closed by done. intros H.
    apply bind_inv_Throw in H as [H | (? & _ & H)];
      [exact (render_all_error _ _ _ Hl H)|].
    discriminate.
Qed.

Lemma li_strong_invalid_only s e : li_strong s = Ok e → invalid_only e.
Proof. intros H. injection H as <-. auto 6 with faults. Qed.

Lemma li_plain_invalid_only s e : li_plain s = Ok e → invalid_only e.
Proof. intros H. injection H as <-. auto 6 with faults. Qed.

Lemma li_pair_invalid_only key val s e : li_pair key val s = Ok e → invalid_only e.
Proof. unfold li_pair. intros H. bind_inv H. auto 8 with faults. Qed.

Lemma li_report_invalid_only r e : li_report r = Ok e → invalid_only e.
Proof. unfold li_report. intros H. bind_inv H. auto 10 with faults. Qed.

Lemma map_items_invalid_only (f : value → res elem) (items : list value) (es : list elem) :
  (∀ x e, f x = Ok e → invalid_only e) → map_items f items = Ok es →
  Forall invalid_only es.
Proof.
  intros Hf. revert es. induction items as [|x r IH]; simpl; intros es H.
  - injection H as <-. constructor.
  - bind_inv H. constructor; eauto.
Qed.

Lemma list_section_invalid_only σ k title fld item report e :
  (∀ x e, item x = Ok e → invalid_only e) →
  list_section σ k title fld item report = Ok e → invalid_only e.
Proof.
  unfold list_section. intros Hitem H. bind_inv H.
  apply AccordionItem_invalid_only; [auto with faults|].
  repeat constructor. apply invalid_only_el.
  destruct x; simpl in Hx0; try discriminate;
    try (injection Hx0 as <-; constructor). by eapply map_items_invalid_only.
Qed.

Lemma sections_invalid_only σ report :
  Forall (λ f, ∀ e, f report = Ok e → invalid_only e) (sections σ).
Proof.
  unfold sections. repeat (apply Forall_cons; split); try apply Forall_nil_2; intros e H.
  - unfold section_AuditorsOpinion in H. bind_inv H.
    apply AccordionItem_invalid_only; auto 6 with faults.
  - eapply list_section_invalid_only; [|exact H]. apply li_strong_invalid_only.
  - eapply list_section_invalid_only; [|exact H]. apply li_plain_invalid_only.
  - eapply list_section_invalid_only; [|exact H]. apply li_pair_invalid_only.
  - eapply list_section_invalid_only; [|exact H]. apply li_strong_invalid_only.
  - eapply list_section_invalid_only; [|exact H]. apply li_pair_invalid_only.
  - eapply list_section_invalid_only; [|exact H]. apply li_pair_invalid_only.
  - eapply list_section_invalid_only; [|exact H]. apply li_report_invalid_only.
  - unfold section_control_exception in H. bind_inv H.
    apply AccordionItem_invalid_only; auto 6 with faults.
  - eapply list_section_invalid_only; [|exact H]. apply li_pair_invalid_only.
Qed.

Lemma build_sections_Forall (P : elem → Prop) (fs : list (value → res elem)) report es :
  Forall (λ f, ∀ e, f report = Ok e → P e) fs →
  build_sections fs report = Ok es → Forall P es.
Proof.
  intros Hall. revert es. induction Hall as [|f fs Hf _ IH]; simpl; intros es H.
  - injection H as <-. constructor.
  - bind_inv H. constructor; eauto.
Qed.

Lemma build_sections_member (fs : list (value → res elem)) report es f e :
  build_sections fs report = Ok es → f ∈ fs → f report = Ok e → e ∈ es.
Proof.
  revert es. induction fs as [|g fs IH]; simpl; intros es H Hin Hf.
  - by apply elem_of_nil in Hin.
  - bind_inv H. apply elem_of_cons in Hin as [-> | Hin].
    + rewrite Hf in Hx. injection Hx as <-. apply list_elem_of_here.
    + apply list_elem_of_further. eauto.
Qed.

Lemma summary_line_invalid_only label v : invalid_only (summary_line label v).
Proof. unfold summary_line. auto 8 with faults. Qed.

Lemma page_invalid_only rs i (r : value) (es : list elem) :
  Forall invalid_only es →
  invalid_only
    (el "div"
       [ el "div" [el "h1" [child (field r "file_name")]; nav_buttons rs i];
         Card [CardContent
                 [ summary_line "Auditor:" (field r "ServiceAuditor");
                   summary_line "Report Type:" (field r "SOC1ReportType");
                   summary_line "Period:" (field r "ReportPeriod");
                   summary_line "Opinion Date:" (field r "AuditorOpinionDate") ]];
         Accordion es ]).
Proof.
  intros Hes. apply invalid_only_el. repeat constructor.
  - apply invalid_only_el. repeat constructor.
    + auto 6 with faults.
    + intros ctx err'. by rewrite nav_buttons_render.
  - unfold Card, CardContent. apply invalid_only_el. repeat constructor.
    apply invalid_only_el. repeat constructor; apply summary_line_invalid_only.
  - by apply invalid_only_el.
Qed.

Lemma page_render_kinds rs i σ err :
  render (ReportViewer rs i σ) = Throw err → err = TypeError ∨ err = InvalidChild.
Proof.
  destruct (truthy (at_index rs i)) eqn:Ht; [|by rewrite ReportViewer_loading].
  unfold render. rewrite ReportViewer_truthy by done. intros H.
  apply bind_inv_Throw in H as [H | (page & Hpage & H)].
  - apply bind_inv_Throw in H as [H | (? & _ & H)]; [|discriminate].
    left. eapply build_sections_error; [apply sections_only_TypeError|exact H].
  - right. bind_inv Hpage. revert H. apply page_invalid_only.
    exact (build_sections_Forall _ _ _ _ (sections_invalid_only σ _) Hx).
Qed.

Lemma page_fails_with_section rs i σ (es : list elem) (e : elem) :
  truthy (at_index rs i) = true →
  build_sections (sections σ) (at_index rs i) = Ok es →
  e ∈ es → is_ok (e None) = false →
  is_ok (render (ReportViewer rs i σ)) = false.
Proof.
  intros Ht Hes Hmem He. unfold render. rewrite ReportViewer_truthy by done.
  rewrite Hes. simpl. unfold el at 1, host at 1.
  match goal with |- is_ok (render_all None ?l ≫= _) = false =>
    assert (Hall : is_ok (render_all None l) = false) end.
  { apply render_all_fails. do 2 apply Exists_cons_tl. apply Exists_cons_hd.
    unfold Accordion, el, host.
    assert (Hes' : is_ok (render_all None es) = false).
    { apply render_all_fails. apply Exists_exists. by exists e. }
    by destruct (render_all None es). }
  by destruct (render_all None _).
Qed.

(** X11. The record page fails in two ways only: with a [TypeError] while the
    component body runs, or with React's invalid-child error while children
    are rendered; it never misuses the disclosure primitives.  And errors are
    not contained: when the body has run and any one section fails to render,
    the whole page fails with it. *)
Theorem page_failures (rs : list value) (i : Z) (σ : store) :
  (∀ err, render (ReportViewer rs i σ) = Throw err → err = TypeError ∨ err = InvalidChild)
  ∧ (∀ (f : value → res elem) (e page : elem),
       truthy (at_index rs i) = true →
       ReportViewer rs i σ = Ok page →
       f ∈ sections σ → f (at_index rs i) = Ok e → is_ok (e None) = false →
       render (ReportViewer rs i σ) = Throw InvalidChild).
Proof.
  split; [intros err; apply page_render_kinds|].
  intros f e page Ht Hpage Hin Hf He.
  pose proof Hpage as Hbody. rewrite ReportViewer_truthy in Hbody by done.
  apply bind_inv_Ok in Hbody as (es & Hes & _).
  pose proof (build_sections_member _ _ _ _ _ Hes Hin Hf) as Hmem.
  pose proof (page_fails_with_section _ _ _ _ _ Ht Hes Hmem He) as Hfail.
  destruct (render (ReportViewer rs i σ)) as [ns|err] eqn:Hr; [done|].
  destruct (page_render_kinds _ _ _ _ Hr) as [-> | ->]; [|done].
  exfalso. unfold render in Hr. rewrite ReportViewer_truthy, Hes in Hr by done.
  simpl in Hr. revert Hr. intros Hr. eapply page_invalid_only in Hr; [done|].
  exact (build_sections_Forall _ _ _ _ (sections_invalid_only σ _) Hes).
Qed.

(** ** Closed sections *)

Lemma AccordionItem_closed_safe σ k (label body : list elem) :
  item_open σ k = false → Forall safe label →
  safe (AccordionItem σ k [AccordionTrigger label; AccordionContent body]).
Proof.
  intros Ho Hl ctx. rewrite AccordionItem_closed by done.
  destruct (render_all_safe (Some {| open := false; toggle := Toggle k |}) label Hl)
    as [ls ->].
  simpl. eauto.
Qed.

Lemma map_items_total (P : value → bool) (f : value → res elem) (items : list value) :
  (∀ x, P x = true → ∃ e, f x = Ok e) →
  forallb P items = true → ∃ es, map_items f items = Ok es.
Proof.
  intros Hf. induction items as [|x r IH]; simpl; intros H; [eauto|].
  apply andb_prop in H as [Hx Hr].
  destruct (Hf x Hx) as (e & ->). destruct (IH Hr) as (es & ->). simpl. eauto.
Qed.

Lemma list_section_closed_safe (P : value → bool) σ k title fld item report :
  item_open σ k = false →
  (∀ x, P x = true → ∃ e, item x = Ok e) →
  truthy report = true → collection_ok P (field report fld) = true →
  ∃ e, list_section σ k title fld item report = Ok e ∧ safe e.
Proof.
  intros Ho Hitem Ht Hc. unfold list_section. rewrite get_truthy by done. simpl.
  assert (Hes : ∃ es, optional_map (field report fld) item = Ok es).
  { destruct (field report fld); simpl in *; try discriminate; eauto.
    by eapply map_items_total. }
  destruct Hes as (es & ->). simpl. eexists; split; [done|].
  apply AccordionItem_closed_safe; auto with elems.
Qed.

Lemma li_strong_total x : (λ _ : value, true) x = true → ∃ e, li_strong x = Ok e.
Proof. intros _. by eexists. Qed.

Lemma li_plain_total x : (λ _ : value, true) x = true → ∃ e, li_plain x = Ok e.
Proof. intros _. by eexists. Qed.

Lemma li_pair_total key val x :
  (λ s, negb (nullish s)) x = true → ∃ e, li_pair key val x = Ok e.
Proof.
  intros Hx%negb_true_iff. unfold li_pair. rewrite !get_not_nullish by done.
  simpl. eauto.
Qed.

Lemma li_report_total x : (λ s, negb (nullish s)) x = true → ∃ e, li_report x = Ok e.
Proof.
  intros Hx%negb_true_iff. unfold li_report. rewrite !get_not_nullish by done.
  simpl. eauto.
Qed.

Lemma build_sections_closed_safe σ r :
  eager_ok r = true → (∀ k, item_open σ k = false) →
  ∃ es, build_sections (sections σ) r = Ok es ∧ Forall safe es.
Proof.
  unfold eager_ok. intros H Hclosed.
  repeat (let Hc := fresh "Hc" in apply andb_prop in H as [H Hc]).
  pose proof H as Ht.
  unfold sections, section_ThirdPartyServiceProvider, section_subservice,
    section_services, section_control_numbers, section_control_objectives,
    section_control_descriptions, section_reports_inscope, section_cuecs.
  cbn [build_sections].
  unfold section_AuditorsOpinion, section_control_exception.
  rewrite !(get_truthy r) by done. cbn [mbind res_bind].
  destruct (list_section_closed_safe _ σ 1 "Third Party Service Providers"
              "ThirdPartyServiceProvider" _ r (Hclosed 1) li_strong_total Ht)
    as (e1 & -> & ?); [done|].
  destruct (list_section_closed_safe _ σ 2 "Subservice Providers"
              "SubserviceProvider" _ r (Hclosed 2) li_plain_total Ht)
    as (e2 & -> & ?); [done|].
  destruct (list_section_closed_safe _ σ 3 "Services Provided"
              "ServicesProvided" _ r (Hclosed 3) (li_pair_total "service" "description") Ht)
    as (e3 & -> & ?); [done|].
  destruct (list_section_closed_safe _ σ 4 "Control Numbers"
              "ControlNumber" _ r (Hclosed 4) li_strong_total Ht)
    as (e4 & -> & ?); [done|].
  destruct (list_section_closed_safe _ σ 5 "Control Objectives"
              "ControlObjective" _ r (Hclosed 5) (li_pair_total "id" "objective") Ht)
    as (e5 & -> & ?); [done|].
  destruct (list_section_closed_safe _ σ 6 "Control Descriptions"
              "ControlDescription" _ r (Hclosed 6) (li_pair_total "number" "description") Ht)
    as (e6 & -> & ?); [done|].
  destruct (list_section_closed_safe _ σ 7 "Reports In Scope"
              "ReportsInScope" _ r (Hclosed 7) li_report_total Ht)
    as (e7 & -> & ?); [done|].
  destruct (list_section_closed_safe _ σ 9 "CUECs"
              "CUECDescription" _ r (Hclosed 9) (li_pair_total "number" "description") Ht)
    as (e9 & -> & ?); [done|].
  cbn [mbind res_bind]. eexists; split; [done|].
  repeat constructor; try done;
    apply AccordionItem_closed_safe; auto with elems.
Qed.

Lemma item_open_mount_items (k : nat) : item_open mount_items k = false.
Proof. unfold item_open. rewrite mount_items_lookup. by case_bool_decide. Qed.

Lemma closed_page_renders rs i σ :
  eager_ok (at_index rs i) = true → (∀ k, item_open σ k = false) →
  ∃ ns, render (ReportViewer rs i σ) = Ok ns.
Proof.
  intros He Hclosed.
  destruct (build_sections_closed_safe σ _ He Hclosed) as (es & Hes & Hsafe).
  revert He. unfold eager_ok, always_rendered_fields. cbn [forallb]. intros H.
  repeat (let Hc := fresh "Hc" in apply andb_prop in H as [H Hc]).
  repeat (let Hs := fresh "Hs" in apply andb_prop in Hc7 as [Hs Hc7]).
  unfold render. rewrite ReportViewer_truthy by done. rewrite Hes. cbn [mbind res_bind].
  apply safe_el. repeat constructor.
  - apply safe_el. repeat constructor.
    + apply safe_el. repeat constructor. by apply safe_child.
    + intros ctx. eexists. apply nav_buttons_render.
  - unfold Card, CardContent. apply safe_el. repeat constructor. apply safe_el.
    repeat constructor; by apply summary_line_safe.
  - by apply safe_el.
Qed.

Lemma loaded_world (r : value) (rest : list value) :
  truthy r = true →
  step mount (FetchResolved (r :: rest)) =
    {| reports := r :: rest; index := 0; opens := mount_items; pending := false;
       fetches := 1; console := [] |}.
Proof.
  intros Hs. cbn [step mount pending]. unfold commit, page_shown, set_opens.
  cbn [settle set_reports reports index opens pending fetches console mount].
  change (at_index (r :: rest) 0) with r. rewrite Hs.
  change (at_index [] 0) with Undefined. reflexivity.
Qed.

(** X12. What a closed section holds is never rendered.  A record on which
    the component body runs to its end, and whose title and summary can be
    rendered, is shown whenever all its sections are closed, even when list
    members, the opinion or the exception text are objects that React would
    reject; in particular the first page after a load is shown. *)
Theorem closed_sections_are_not_rendered (r : value) (rest : list value) :
  eager_ok r = true →
  (∀ rs i (σ : store),
     at_index rs i = r → (∀ k, item_open σ k = false) →
     ∃ ns, render (ReportViewer rs i σ) = Ok ns)
  ∧ is_ok (view (step mount (FetchResolved (r :: rest)))) = true.
Proof.
  intros He. split.
  - intros rs i σ Hat Hclosed. apply closed_page_renders; [by rewrite Hat|done].
  - destruct (closed_page_renders (r :: rest) 0 mount_items He item_open_mount_items)
      as [ns Hv].
    assert (Hs : truthy r = true).
    { unfold eager_ok in He. repeat (apply andb_prop in He as [He _]). done. }
    rewrite loaded_world by done. unfold view. simpl. by rewrite Hv.
Qed.

(** ** What an open list section shows *)

Lemma map_items_li_strong (items : list value) :
  map_items li_strong items = Ok (text_wrap true <$> items).
Proof. induction items as [|x r IH]; simpl; [done|]. by rewrite IH. Qed.

Lemma map_items_li_plain (items : list value) :
  map_items li_plain items = Ok (text_wrap false <$> items).
Proof. induction items as [|x r IH]; simpl; [done|]. by rewrite IH. Qed.

Lemma text_sections_unfold σ report items :
  Forall (λ '(fld, k, title, strong, sec),
            get report fld = Ok (Arr items) →
            sec report =
              Ok (AccordionItem σ k
                    [ AccordionTrigger [text title];
                      AccordionContent [el "ul" (text_wrap strong <$> items)] ]))
         (text_sections σ).
Proof.
  unfold text_sections, section_ThirdPartyServiceProvider, section_subservice,
    section_control_numbers, list_section.
  repeat (apply Forall_cons; split;
          [intros ->; cbn [mbind res_bind optional_map];
           by rewrite ?map_items_li_strong, ?map_items_li_plain|]).
  apply Forall_nil_2.
Qed.

Lemma text_wrap_renderable strong x ctx :
  renderable x = true → ∃ ns, text_wrap strong x ctx = Ok ns.
Proof.
  intros Hx. destruct (renderable_render_child x Hx) as [ns Hns].
  destruct strong; unfold text_wrap, el, host, child; simpl; rewrite Hns; simpl; eauto.
Qed.

Lemma text_wrap_not_renderable strong x ctx :
  renderable x = false → text_wrap strong x ctx = Throw InvalidChild.
Proof.
  intros Hx. pose proof (render_child_not_renderable x Hx) as Hns.
  destruct strong; unfold text_wrap, el, host, child; simpl; by rewrite Hns.
Qed.

Lemma render_all_text_wrap_bad strong ctx (items : list value) :
  forallb renderable items = false →
  render_all ctx (text_wrap strong <$> items) = Throw InvalidChild.
Proof.
  induction items as [|x r IH]; [discriminate|].
  rewrite fmap_cons. cbn [forallb render_all]. intros H.
  destruct (renderable x) eqn:Hx.
  - destruct (text_wrap_renderable strong x ctx Hx) as [ns ->].
    cbn [mbind res_bind]. by rewrite IH.
  - by rewrite text_wrap_not_renderable.
Qed.

Lemma render_all_text_wrap_strings strong ctx (ss : list string) :
  render_all ctx (text_wrap strong <$> (Str <$> ss)) = Ok (text_item strong <$> ss).
Proof.
  induction ss as [|s r IH]; [done|].
  rewrite !fmap_cons. cbn [render_all]. rewrite IH. by destruct strong.
Qed.

(** X13. In the three sections that list their members as they are (third
    parties, subservice providers, control numbers) an object among the
    members goes unnoticed while the section is closed, where only the
    trigger is rendered, and is rejected with React's invalid-child error as
    soon as the section is open. *)
Theorem object_member_rejected_when_open (σ : store) (report : value)
    (items : list value) (fld : string) (k : nat) (title : string) (strong : bool)
    (sec : value → res elem) :
  (fld, k, title, strong, sec) ∈ text_sections σ →
  get report fld = Ok (Arr items) →
  forallb renderable items = false →
  render (sec report) =
    if item_open σ k then Throw InvalidChild
    else Ok [Elem "div" false None [trigger_node k [Text title] "+"]].
Proof.
  intros Hin Hg Hbad.
  pose proof (text_sections_unfold σ report items) as Hall.
  rewrite Forall_forall in Hall. specialize (Hall _ Hin Hg). simpl in Hall.
  unfold render. rewrite Hall. cbn [mbind res_bind].
  destruct (item_open σ k) eqn:Ho.
  - rewrite AccordionItem_open by done. cbn [render_all text mbind res_bind app].
    unfold el, host. by rewrite render_all_text_wrap_bad.
  - by rewrite AccordionItem_closed.
Qed.

(** X14. An open section over a list of strings shows exactly those strings,
    one list item each and in the order of the array (in bold for third
    parties and control numbers, plain for subservice providers), under a
    trigger that carries the section's title and the "−" sign. *)
Theorem text_members_listed_in_order (σ : store) (report : value)
    (ss : list string) (fld : string) (k : nat) (title : string) (strong : bool)
    (sec : value → res elem) :
  (fld, k, title, strong, sec) ∈ text_sections σ →
  get report fld = Ok (Arr (Str <$> ss)) →
  item_open σ k = true →
  render (sec report) =
    Ok [Elem "div" false None
          [ trigger_node k [Text title] "−";
            Elem "div" false None [Elem "ul" false None (text_item strong <$> ss)] ]].
Proof.
  intros Hin Hg Ho.
  pose proof (text_sections_unfold σ report (Str <$> ss)) as Hall.
  rewrite Forall_forall in Hall. specialize (Hall _ Hin Hg). simpl in Hall.
  unfold render. rewrite Hall. cbn [mbind res_bind].
  rewrite AccordionItem_open by done. cbn [render_all text mbind res_bind app].
  unfold el, host. by rewrite render_all_text_wrap_strings.
Qed.

Lemma li_pair_object key val (p : string * string) :
  key ≠ val →
  li_pair key val (pair_object key val p) =
    Ok (el "li" [el "strong" [child (Str p.1); text ":"]; text " "; child (Str p.2)]).
Proof.
  intros Hne. unfold li_pair, pair_object. simpl.
  rewrite String.eqb_refl. apply String.eqb_neq in Hne. by rewrite Hne, String.eqb_refl.
Qed.

Lemma map_items_li_pair key val (ps : list (string * string)) :
  key ≠ val →
  map_items (li_pair key val) (pair_object key val <$> ps) =
    Ok ((λ p, el "li" [el "strong" [child (Str p.1); text ":"]; text " "; child (Str p.2)])
          <$> ps).
Proof.
  intros Hne. induction ps as [|p r IH]; [done|].
  rewrite !fmap_cons. cbn [map_items]. rewrite li_pair_object, IH by done. done.
Qed.

Lemma render_all_pairs ctx (ps : list (string * string)) :
  render_all ctx
    ((λ p, el "li" [el "strong" [child (Str p.1); text ":"]; text " "; child (Str p.2)])
       <$> ps) = Ok (pair_item <$> ps).
Proof.
  induction ps as [|p r IH]; [done|].
  rewrite !fmap_cons. cbn [render_all]. rewrite IH. reflexivity.
Qed.

Lemma pair_sections_unfold σ report (ps : list (string * string)) :
  Forall (λ '(fld, k, title, (key, val), sec),
            get report fld = Ok (Arr (pair_object key val <$> ps)) →
            sec report =
              Ok (AccordionItem σ k
                    [ AccordionTrigger [text title];
                      AccordionContent
                        [el "ul"
                           ((λ p, el "li" [el "strong" [child (Str p.1); text ":"];
                                           text " "; child (Str p.2)]) <$> ps)] ]))
         (pair_sections σ).
Proof.
  unfold pair_sections, section_services, section_control_objectives,
    section_control_descriptions, section_cuecs, list_section.
  repeat (apply Forall_cons; split;
          [intros ->; cbn [mbind res_bind optional_map];
           by rewrite map_items_li_pair|]).
  apply Forall_nil_2.
Qed.

(** X15. An open section over pairs (services, control objectives, control
    descriptions, CUECs) shows, for an array of objects that hold the
    section's two properties as strings, one list item per object and in the
    order of the array: the first property and a colon in bold, a space, the
    second property. *)
Theorem pair_members_listed_in_order (σ : store) (report : value)
    (ps : list (string * string)) (fld : string) (k : nat) (title key val : string)
    (sec : value → res elem) :
  (fld, k, title, (key, val), sec) ∈ pair_sections σ →
  get report fld = Ok (Arr (pair_object key val <$> ps)) →
  item_open σ k = true →
  render (sec report) =
    Ok [Elem "div" false None
          [ trigger_node k [Text title] "−";
            Elem "div" false None [Elem "ul" false None (pair_item <$> ps)] ]].
Proof.
  intros Hin Hg Ho.
  pose proof (pair_sections_unfold σ report ps) as Hall.
  rewrite Forall_forall in Hall. specialize (Hall _ Hin Hg). simpl in Hall.
  unfold render. rewrite Hall. cbn [mbind res_bind].
  rewrite AccordionItem_open by done. cbn [render_all text mbind res_bind app].
  unfold el at 1, host at 1. by rewrite render_all_pairs.
Qed.

(** ** Counting list items *)

Lemma count_tags_app (t : string) (ns ms : list node) :
  count_tags t (ns ++ ms) = count_tags t ns + count_tags t ms.
Proof.
  unfold count_tags. induction ns as [|n ns IH]; simpl; [done|]. rewrite IH. lia.
Qed.

Lemma count_tags_Elem (t tag : string) dis h (kids : list node) :
  count_tags t [Elem tag dis h kids] =
    (if String.eqb tag t then 1 else 0) + count_tags t kids.
Proof. unfold count_tags. cbn [foldr]. rewrite Nat.add_0_r. reflexivity. Qed.

Lemma render_child_no_li (t : string) :
  ∀ v ns, render_child v = Ok ns → count_tags t ns = 0.
Proof.
  fix IH 1. intros [| |b|n|s|items|fields] ns; simpl; intros H;
    try (injection H as <-; done); try discriminate.
  revert ns H. induction items as [|x r IHr]; intros ns H.
  - by injection H as <-.
  - apply bind_inv_Ok in H as (n1 & H1 & H).
    apply bind_inv_Ok in H as (n2 & H2 & H). injection H as <-.
    rewrite count_tags_app, (IH x n1 H1), (IHr n2 H2). done.
Qed.

Lemma render_all_no_li ctx (es : list elem) (ns : list node) :
  Forall no_li es → render_all ctx es = Ok ns → count_tags "li" ns = 0.
Proof.
  intros Hes. revert ns. induction Hes as [|e es He _ IH]; intros ns H.
  - by injection H as <-.
  - apply render_all_inv_cons in H as (n1 & n2 & H1 & H2 & ->).
    rewrite count_tags_app, (He _ _ H1), (IH _ H2). done.
Qed.

Lemma render_all_one_li ctx (es : list elem) (ns : list node) :
  Forall one_li es → render_all ctx es = Ok ns → count_tags "li" ns = length es.
Proof.
  intros Hes. revert ns. induction Hes as [|e es He _ IH]; intros ns H.
  - by injection H as <-.
  - apply render_all_inv_cons in H as (n1 & n2 & H1 & H2 & ->).
    rewrite count_tags_app, (He _ _ H1), (IH _ H2). done.
Qed.

Lemma no_li_child (v : value) : no_li (child v).
Proof. intros ctx ns. apply render_child_no_li. Qed.

Lemma no_li_text (s : string) : no_li (text s).
Proof. intros ctx ns H. by injection H as <-. Qed.

Lemma no_li_strong (cs : list elem) : Forall no_li cs → no_li (el "strong" cs).
Proof.
  intros Hcs ctx ns H. apply host_inv in H as (kids & Hk & ->).
  rewrite count_tags_Elem. simpl. by eapply render_all_no_li.
Qed.

Lemma one_li_el (cs : list elem) : Forall no_li cs → one_li (el "li" cs).
Proof.
  intros Hcs ctx ns H. apply host_inv in H as (kids & Hk & ->).
  rewrite count_tags_Elem. simpl. by rewrite (render_all_no_li _ _ _ Hcs Hk).
Qed.

Create HintDb items.
#[local] Hint Resolve no_li_child no_li_text no_li_strong one_li_el : items.
#[local] Hint Constructors Forall : items.

Lemma li_strong_one_li s e : li_strong s = Ok e → one_li e.
Proof. intros H. injection H as <-. auto 6 with items. Qed.

Lemma li_plain_one_li s e : li_plain s = Ok e → one_li e.
Proof. intros H. injection H as <-. auto 6 with items. Qed.

Lemma li_pair_one_li key val s e : li_pair key val s = Ok e → one_li e.
Proof. unfold li_pair. intros H. bind_inv H. auto 8 with items. Qed.

Lemma li_report_one_li r e : li_report r = Ok e → one_li e.
Proof. unfold li_report. intros H. bind_inv H. auto 10 with items. Qed.

Lemma map_items_one_li (f : value → res elem) (items : list value) (es : list elem) :
  (∀ x e, f x = Ok e → one_li e) → map_items f items = Ok es →
  Forall one_li es ∧ length es = length items.
Proof.
  intros Hf. revert es. induction items as [|x r IH]; simpl; intros es H.
  - injection H as <-. by split.
  - apply bind_inv_Ok in H as (e & He & H).
    apply bind_inv_Ok in H as (es' & Hes' & H). injection H as <-.
    destruct (IH _ Hes') as [Hall Hlen]. split; [constructor; eauto|].
    simpl. by rewrite Hlen.
Qed.

Lemma list_section_count σ k title fld item report (items : list value) (ns : list node) :
  (∀ x e, item x = Ok e → one_li e) →
  get report fld = Ok (Arr items) →
  render (list_section σ k title fld item report) = Ok ns →
  count_tags "li" ns = if item_open σ k then length items else 0.
Proof.
  intros Hitem Hg. unfold render, list_section. rewrite Hg.
  cbn [mbind res_bind optional_map].
  destruct (map_items item items) as [es|] eqn:Hes; [|discriminate].
  destruct (map_items_one_li _ _ _ Hitem Hes) as [Hall Hlen].
  cbn [mbind res_bind]. destruct (item_open σ k) eqn:Ho.
  - rewrite AccordionItem_open by done. cbn [render_all text mbind res_bind app].
    unfold el, host.
    destruct (render_all _ es) as [kids|] eqn:Hk; [|discriminate].
    cbn [mbind res_bind app]. intros [= <-].
    rewrite count_tags_Elem. unfold trigger_node.
    change (count_tags "li" [?a; ?b]) with (count_tags "li" ([a] ++ [b])).
    rewrite count_tags_app, !count_tags_Elem. simpl String.eqb. cbn [Nat.add].
    change (count_tags "li" [?a; ?b]) with (count_tags "li" ([a] ++ [b])).
    rewrite count_tags_app, !count_tags_Elem. simpl String.eqb. cbn [Nat.add].
    rewrite (render_all_one_li _ _ _ Hall Hk). unfold count_tags. simpl. lia.
  - rewrite AccordionItem_closed by done. cbn [render_all text mbind res_bind app].
    by intros [= <-].
Qed.

Lemma collection_sections_count σ report (items : list value) :
  Forall (λ '(fld, k, sec),
            ∀ ns, get report fld = Ok (Arr items) → render (sec report) = Ok ns →
                  count_tags "li" ns = if item_open σ k then length items else 0)
         (collection_sections σ).
Proof.
  unfold collection_sections, section_ThirdPartyServiceProvider, section_subservice,
    section_services, section_control_numbers, section_control_objectives,
    section_control_descriptions, section_reports_inscope, section_cuecs.
  apply Forall_cons; split;
    [intros ns Hg; apply list_section_count; [apply li_strong_one_li|done]|].
  apply Forall_cons; split;
    [intros ns Hg; apply list_section_count; [apply li_plain_one_li|done]|].
  apply Forall_cons; split;
    [intros ns Hg; apply list_section_count; [apply li_pair_one_li|done]|].
  apply Forall_cons; split;
    [intros ns Hg; apply list_section_count; [apply li_strong_one_li|done]|].
  apply Forall_cons; split;
    [intros ns Hg; apply list_section_count; [apply li_pair_one_li|done]|].
  apply Forall_cons; split;
    [intros ns Hg; apply list_section_count; [apply li_pair_one_li|done]|].
  apply Forall_cons; split;
    [intros ns Hg; apply list_section_count; [apply li_report_one_li|done]|].
  apply Forall_cons; split;
    [intros ns Hg; apply list_section_count; [apply li_pair_one_li|done]|].
  apply Forall_nil_2.
Qed.

(** X16. Whenever one of the eight collection sections renders, it holds one
    list item for every member of its array when it is open, and none when it
    is closed: no member is dropped, none is shown twice, and nothing of a
    closed section is on the page. *)
Theorem one_item_per_member (σ : store) (report : value) (items : list value)
    (fld : string) (k : nat) (sec : value → res elem) (ns : list node) :
  (fld, k, sec) ∈ collection_sections σ →
  get report fld = Ok (Arr items) →
  render (sec report) = Ok ns →
  count_tags "li" ns = if item_open σ k then length items else 0.
Proof.
  intros Hin Hg Hr.
  pose proof (collection_sections_count σ report items) as Hall.
  rewrite Forall_forall in Hall. by apply (Hall (fld, k, sec)).
Qed.

Lemma optional_map_empty (item : value → res elem) (v : value) :
  empty_collection v = true → optional_map v item = Ok [].
Proof. destruct v as [| | | | |[|x r]|]; simpl; done. Qed.

Lemma list_section_same σ k title fld item r1 r2 v1 v2 :
  get r1 fld = Ok v1 → get r2 fld = Ok v2 →
  v1 = v2 ∨ (empty_collection v1 = true ∧ empty_collection v2 = true) →
  list_section σ k title fld item r1 = list_section σ k title fld item r2.
Proof.
  intros H1 H2 Hv. unfold list_section. rewrite H1, H2. cbn [mbind res_bind].
  destruct Hv as [-> | [He1 He2]]; [done|]. by rewrite !optional_map_empty.
Qed.

Lemma collection_sections_same σ r1 r2 :
  Forall (λ '(fld, k, sec),
            ∀ v1 v2, get r1 fld = Ok v1 → get r2 fld = Ok v2 →
                     v1 = v2 ∨ (empty_collection v1 = true ∧ empty_collection v2 = true) →
                     sec r1 = sec r2)
         (collection_sections σ).
Proof.
  unfold collection_sections, section_ThirdPartyServiceProvider, section_subservice,
    section_services, section_control_numbers, section_control_objectives,
    section_control_descriptions, section_reports_inscope, section_cuecs.
  repeat (apply Forall_cons; split; [intros v1 v2; apply list_section_same|]).
  apply Forall_nil_2.
Qed.

(** X17. A collection section reads its own field and nothing else of the
    record: two records that agree on the field give the same section.  And
    the three ways of holding no members are not told apart: a missing field,
    [null] and an empty array give the same section. *)
Theorem section_depends_on_its_field (σ : store) (r1 r2 v1 v2 : value)
    (fld : string) (k : nat) (sec : value → res elem) :
  (fld, k, sec) ∈ collection_sections σ →
  get r1 fld = Ok v1 → get r2 fld = Ok v2 →
  v1 = v2 ∨ (empty_collection v1 = true ∧ empty_collection v2 = true) →
  sec r1 = sec r2 ∧ render (sec r1) = render (sec r2).
Proof.
  intros Hin H1 H2 Hv.
  pose proof (collection_sections_same σ r1 r2) as Hall.
  rewrite Forall_forall in Hall.
  assert (Heq : sec r1 = sec r2) by by apply (Hall (fld, k, sec) Hin v1 v2).
  by rewrite Heq.
Qed.

(** * Composition of the primitives *)

(** X18. The trigger's sign and the content region are always in step: an
    item that renders shows either the "+" sign and nothing else, when it is
    closed, or the "−" sign followed by its content, when it is open; what it
    renders does not depend on the context the item itself stands in. *)
Theorem sign_matches_content (σ : store) (k : nat) (label body : list elem)
    (ctx : option item_ctx) (ns : list node) :
  AccordionItem σ k [AccordionTrigger label; AccordionContent body] ctx = Ok ns →
  AccordionItem σ k [AccordionTrigger label; AccordionContent body] None = Ok ns
  ∧ ∃ ls,
      render_all (Some {| open := item_open σ k; toggle := Toggle k |}) label = Ok ls
      ∧ ((item_open σ k = false
          ∧ ns = [Elem "div" false None [trigger_node k ls "+"]])
         ∨ (item_open σ k = true
            ∧ ∃ bs,
                render_all (Some {| open := true; toggle := Toggle k |}) body = Ok bs
                ∧ ns = [Elem "div" false None
                          [trigger_node k ls "−"; Elem "div" false None bs]])).
Proof.
  intros H. split; [exact H|]. destruct (item_open σ k) eqn:Ho.
  - rewrite AccordionItem_open in H by done.
    apply bind_inv_Ok in H as (ls & Hls & H). apply bind_inv_Ok in H as (bs & Hbs & H).
    injection H as <-. exists ls. split; [done|]. right. split; [done|]. by exists bs.
  - rewrite AccordionItem_closed in H by done.
    apply bind_inv_Ok in H as (ls & Hls & H). injection H as <-.
    exists ls. split; [done|]. by left.
Qed.

(** X19. A trigger binds to the nearest enclosing item.  An item nested in
    another one renders as it does on its own, inside one more [div]; the
    state of the outer item plays no part, and the only control rendered is
    the trigger of the inner item. *)
Theorem trigger_binds_to_nearest_item (σ : store) (k j : nat) (label body : list elem)
    (ctx : option item_ctx) :
  AccordionItem σ k [AccordionItem σ j [AccordionTrigger label; AccordionContent body]] ctx =
    (ns ← AccordionItem σ j [AccordionTrigger label; AccordionContent body] None;
     Ok [Elem "div" false None ns])
  ∧ (Forall tame label → Forall tame body →
     toggles_only j
       (AccordionItem σ k
          [AccordionItem σ j [AccordionTrigger label; AccordionContent body]])).
Proof.
  assert (Heq : ∀ c,
    AccordionItem σ k [AccordionItem σ j [AccordionTrigger label; AccordionContent body]] c =
      (ns ← AccordionItem σ j [AccordionTrigger label; AccordionContent body] None;
       Ok [Elem "div" false None ns])).
  { intros c. unfold AccordionItem at 1. unfold el at 1, host at 1. cbn [render_all].
    change (AccordionItem σ j ?cs (Some ?c'))
      with (AccordionItem σ j cs None).
    destruct (AccordionItem σ j _ None) as [ns|]; [|done].
    cbn [mbind res_bind]. by rewrite app_nil_r. }
  split; [apply Heq|].
  intros Hl Hb c ns a H. rewrite Heq in H.
  apply bind_inv_Ok in H as (ms & Hms & H). injection H as <-.
  cbn [find_controls]. rewrite find_control_Elem, decide_False by done.
  rewrite (AccordionItem_toggles_only σ j label body Hl Hb None ms a Hms).
  by case_decide.
Qed.

(** X20. [Card] and [CardContent] are transparent containers: they hand the
    context they stand in on to their children, so that a trigger wrapped in
    them inside an item toggles that item and outside an item still throws;
    and they contain no failure: when any child fails to render, so do
    they. *)
Theorem cards_are_transparent (σ : store) (k : nat) (label cs : list elem)
    (ctx : option item_ctx) :
  (Forall tame label →
   toggles_only k (AccordionItem σ k [Card [CardContent [AccordionTrigger label]]]))
  ∧ render (Ok (Card [CardContent [AccordionTrigger label]])) =
      Throw (Error "AccordionTrigger must be used within an AccordionItem")
  ∧ (Exists (λ c : elem, is_ok (c ctx) = false) cs →
     is_ok (Card cs ctx) = false ∧ is_ok (CardContent cs ctx) = false).
Proof.
  split; [|split; [reflexivity|]].
  - intros Hl c ns a H.
    unfold AccordionItem, Card, CardContent, AccordionTrigger, el, host in H.
    cbn [render_all mbind res_bind] in H.
    destruct (render_all _ label) as [ls|] eqn:Hls; [|discriminate].
    cbn [mbind res_bind app] in H. injection H as <-.
    apply (render_all_tame _ _ _ Hl) in Hls.
    cbn [find_controls]. rewrite !find_control_Elem, decide_False by done.
    cbn [find_controls]. rewrite !find_control_Elem, decide_False by done.
    cbn [find_controls]. rewrite !find_control_Elem, decide_False by done.
    cbn [find_controls]. rewrite find_control_Elem. cbn [open toggle].
    destruct (decide (a = Toggle k)) as [->|Hne].
    + by rewrite decide_True.
    + rewrite decide_False by congruence.
      rewrite find_controls_no_handlers; [done|]. simpl. by rewrite Hls.
  - intros Hex. apply (render_all_fails ctx) in Hex.
    unfold Card, CardContent, el, host. by destruct (render_all ctx cs).
Qed.

(** X21. The application shell adds one [div] around the viewer and nothing
    else: the screen fails exactly when the viewer fails, with the same
    error, and offers exactly the controls the viewer offers, so that what
    holds of the viewer's render holds of the screen. *)
Theorem shell_is_transparent (w : world) :
  (∀ ns, view w = Ok ns → screen w = Ok [Elem "div" false None ns])
  ∧ (∀ e, view w = Throw e → screen w = Throw e)
  ∧ (∀ a, clickable a (screen w) = clickable a (view w)).
Proof.
  assert (Hs : screen w = (ns ← view w; Ok [Elem "div" false None ns])).
  { unfold screen, App, view, render, el, host, component. cbn [render_all].
    destruct (ReportViewer _ _ _) as [f|]; [|done]. cbn [mbind res_bind].
    destruct (f None); [|done]. cbn [mbind res_bind]. by rewrite app_nil_r. }
  rewrite Hs. split; [by intros ns ->|]. split; [by intros e ->|].
  intros a. destruct (view w) as [ns|]; [|done]. cbn [mbind res_bind clickable].
  cbn [find_controls]. rewrite find_control_Elem, decide_False by done.
  by destruct (find_controls a ns).
Qed.

(** * How the operations compose *)

Lemma click_toggle_ws (w : world) (k : nat) :
  well_shaped (at_index (reports w) (index w)) = true → k < 10 →
  step w (Click (Toggle k)) = set_opens (toggle_item k (opens w)) w.
Proof.
  intros Hw Hk. apply step_toggle. apply clickable_intro; [done|].
  simpl. by rewrite bool_decide_eq_true_2 by lia.
Qed.

Lemma click_next_ws (w : world) :
  forallb well_shaped (reports w) = true →
  (0 ≤ index w ≤ Z.of_nat (length (reports w)) - 1)%Z →
  step w (Click HandleNext) = set_index (handleNext (reports w) (index w)) w.
Proof.
  intros Hall Hi.
  destruct (decide (index w = Z.of_nat (length (reports w)) - 1)%Z) as [Hlast|Hin].
  - rewrite click_next_at_last by done. unfold handleNext.
    rewrite Z.min_r by lia. rewrite <- Hlast. symmetry. apply set_index_same.
  - rewrite click_next_inside by (done || lia). unfold handleNext. by rewrite Z.min_l by lia.
Qed.

Lemma click_prev_ws (w : world) :
  forallb well_shaped (reports w) = true →
  (0 ≤ index w ≤ Z.of_nat (length (reports w)) - 1)%Z →
  step w (Click HandlePrev) = set_index (handlePrev (index w)) w.
Proof.
  intros Hall Hi.
  destruct (decide (index w = 0)%Z) as [Hfirst|Hin].
  - rewrite click_prev_at_first by done. rewrite Hfirst. unfold handlePrev.
    rewrite Z.max_r by lia. rewrite <- Hfirst. symmetry. apply set_index_same.
  - rewrite click_prev_inside by (done || lia). unfold handlePrev. by rewrite Z.max_l by lia.
Qed.

Lemma toggle_item_commute (j k : nat) (σ : store) :
  toggle_item j (toggle_item k σ) = toggle_item k (toggle_item j σ).
Proof.
  unfold toggle_item. apply map_eq. intros i.
  destruct (decide (j = i)) as [->|Hj]; destruct (decide (k = i)) as [->|Hk];
    rewrite ?lookup_alter_eq, ?lookup_alter_ne, ?lookup_alter_eq, ?lookup_alter_ne by done;
    done.
Qed.

Lemma iter_toggle_lookup (n : nat) (k : nat) (σ : store) (b : bool) :
  σ !! k = Some b →
  Nat.iter n (toggle_item k) σ !! k = Some (if Nat.even n then b else negb b).
Proof.
  intros Hb. induction n as [|n IH]; [done|].
  rewrite Nat.iter_succ, toggle_item_self, IH, Nat.even_succ, <- Nat.negb_even.
  simpl. unfold flip. by destruct (Nat.even n), b.
Qed.

Lemma run_toggles (n : nat) :
  ∀ (w : world) (k : nat),
    well_shaped (at_index (reports w) (index w)) = true → k < 10 →
    run w (replicate n (Click (Toggle k))) =
      set_opens (Nat.iter n (toggle_item k) (opens w)) w.
Proof.
  induction n as [|n IH]; intros w k Hw Hk.
  - simpl. symmetry. apply set_opens_same.
  - rewrite run_replicate_S, click_toggle_ws by done.
    rewrite IH; [|by destruct w|done]. rewrite set_opens_twice.
    f_equal. destruct w; simpl. clear. induction n as [|n IHn]; [done|].
    rewrite !Nat.iter_succ in *. by rewrite IHn.
Qed.

(** X22. Activating the trigger of one section [n] times leaves that section
    as it was when [n] is even and flips it when [n] is odd; the other
    sections, the index and the rest of the state are untouched. *)
Theorem toggle_parity (w : world) (k n : nat) (b : bool) :
  well_shaped (at_index (reports w) (index w)) = true →
  k < 10 →
  opens w !! k = Some b →
  let w' := run w (replicate n (Click (Toggle k))) in
  opens w' !! k = Some (if Nat.even n then b else negb b)
  ∧ (∀ j, j ≠ k → opens w' !! j = opens w !! j)
  ∧ index w' = index w
  ∧ reports w' = reports w.
Proof.
  intros Hw Hk Hb w'. subst w'. rewrite run_toggles by done.
  split; [by apply iter_toggle_lookup|]. split; [|by destruct w].
  intros j Hj. destruct w as [rs i σ p f c]; simpl. clear -Hj.
  induction n as [|n IH]; [done|].
  rewrite Nat.iter_succ, toggle_item_other by done. exact IH.
Qed.

(** X23. Over well-shaped records the order of the user's actions on
    different controls does not matter: toggling two sections in either order
    gives the same state, and so does toggling a section before or after a
    step of navigation. *)
Theorem actions_commute (w : world) (j k : nat) (a : action) :
  forallb well_shaped (reports w) = true →
  (0 ≤ index w ≤ Z.of_nat (length (reports w)) - 1)%Z →
  j < 10 → k < 10 →
  a = HandlePrev ∨ a = HandleNext →
  step (step w (Click (Toggle j))) (Click (Toggle k))
  = step (step w (Click (Toggle k))) (Click (Toggle j))
  ∧ step (step w (Click a)) (Click (Toggle k))
    = step (step w (Click (Toggle k))) (Click a).
Proof.
  intros Hall Hi Hj Hk Ha.
  assert (Hw : well_shaped (at_index (reports w) (index w)) = true)
    by (apply at_index_Forall; [done|lia]).
  split.
  - rewrite (click_toggle_ws w j), (click_toggle_ws w k) by done.
    rewrite !click_toggle_ws by (by destruct w).
    rewrite !set_opens_twice. destruct w; simpl. by rewrite toggle_item_commute.
  - rewrite (click_toggle_ws w k) by done.
    assert (Hnav : ∀ v : world,
              forallb well_shaped (reports v) = true →
              (0 ≤ index v ≤ Z.of_nat (length (reports v)) - 1)%Z →
              step v (Click a) = set_index (navigate (reports v) (index v)
                                   (if decide (a = HandlePrev) then Previous else Next)) v).
    { intros v Hv Hiv. destruct Ha as [-> | ->]; simpl navigate.
      - by apply click_prev_ws.
      - by apply click_next_ws. }
    rewrite (Hnav w) by done. rewrite Hnav; [|by destruct w|by destruct w].
    rewrite click_toggle_ws; [by destruct w| |done].
    destruct w as [rs i σ p f c]; simpl in *.
    apply at_index_Forall; [done|].
    pose proof (navigate_in_range rs i
                  (if decide (a = HandlePrev) then Previous else Next) Hi). lia.
Qed.

(** * The further properties at concrete documents *)

Lemma dead_end_witness :
  let w := run mount [FetchResolved with_gap; Click HandleNext] in
  index w = 1%Z
  ∧ pending w = false
  ∧ page_shown w = false
  ∧ run w [Click HandleNext; Click HandlePrev; FetchResolved [report_b]] = w.
Proof.
  intros w.
  assert (Hp : pending w = false) by (vm_compute; reflexivity).
  assert (Hs : page_shown w = false) by (vm_compute; reflexivity).
  split; [vm_compute; reflexivity|]. split; [exact Hp|]. split; [exact Hs|].
  exact (dead_end w _ Hp (or_introl Hs)).
Defined.

Lemma index_moves_one_step_witness :
  index (step loaded_two (Click HandleNext)) ≠ index loaded_two
  ∧ index (step loaded_two (Click HandleNext)) = (index loaded_two + 1)%Z.
Proof.
  assert (Hne : index (step loaded_two (Click HandleNext)) ≠ index loaded_two)
    by (vm_compute; discriminate).
  split; [exact Hne|].
  destruct (index_moves_one_step loaded_two (Click HandleNext) Hne)
    as [(He & _) | (_ & H & _)]; [discriminate He | exact H].
Defined.

Lemma sections_keep_state_across_records_witness :
  let w := step loaded_two (Click (Toggle 4)) in
  page_shown (step w (Click HandleNext)) = true
  ∧ index (step w (Click HandleNext)) = 1%Z
  ∧ opens (step w (Click HandleNext)) !! 4 = Some true.
Proof.
  intros w.
  assert (Hs : page_shown (step w (Click HandleNext)) = true) by (vm_compute; reflexivity).
  split; [exact Hs|]. split; [vm_compute; reflexivity|].
  rewrite (sections_keep_state_across_records w HandleNext (or_intror eq_refl) Hs).
  vm_compute. reflexivity.
Defined.

Lemma prev_then_next_round_trip_witness :
  let rs := [report_a; report_b; report_c] in
  (0 ≤ 1 < Z.of_nat (length rs))%Z
  ∧ handleNext rs (handlePrev 1) = 1%Z.
Proof.
  intros rs.
  assert (Hi : (0 ≤ 1 < Z.of_nat (length rs))%Z) by (simpl; lia).
  destruct (prev_then_next_round_trip rs 1 Hi) as (H & _).
  split; [exact Hi|]. rewrite H. reflexivity.
Defined.

Lemma repeated_clicks_reach_every_record_witness :
  forallb well_shaped (reports loaded_three) = true
  ∧ (0 ≤ index loaded_three ≤ Z.of_nat (length (reports loaded_three)) - 1)%Z
  ∧ index (run loaded_three (replicate 2 (Click HandleNext))) = 2%Z
  ∧ index (run loaded_three (replicate 5 (Click HandleNext))) = 2%Z.
Proof.
  assert (Hall : forallb well_shaped (reports loaded_three) = true) by reflexivity.
  assert (Hi : (0 ≤ index loaded_three ≤ Z.of_nat (length (reports loaded_three)) - 1)%Z)
    by (simpl; lia).
  split; [exact Hall|]. split; [exact Hi|]. split.
  - destruct (repeated_clicks_reach_every_record loaded_three 2 Hall Hi) as (H & _).
    rewrite H. reflexivity.
  - destruct (repeated_clicks_reach_every_record loaded_three 5 Hall Hi) as (H & _).
    rewrite H. reflexivity.
Defined.

Lemma well_shaped_document_never_fails_witness :
  forallb well_shaped [report_a; report_b; report_c] = true
  ∧ is_ok (view (run (step mount (FetchResolved [report_a; report_b; report_c]))
                   [Click HandleNext; Click (Toggle 3); Click HandleNext; Click (Toggle 1)]))
    = true.
Proof.
  assert (Hall : forallb well_shaped [report_a; report_b; report_c] = true) by reflexivity.
  split; [exact Hall|].
  destruct (well_shaped_document_never_fails [report_a; report_b; report_c]
              [Click HandleNext; Click (Toggle 3); Click HandleNext; Click (Toggle 1)] Hall)
    as (_ & H & _).
  exact H.
Defined.

Lemma both_controls_disabled_iff_single_witness :
  truthy (at_index [report_a] 0) = true
  ∧ ∃ ns, render (ReportViewer [report_a] 0 ∅) = Ok ns
          ∧ find_controls HandlePrev ns = Some true
          ∧ find_controls HandleNext ns = Some true.
Proof.
  assert (Ht : truthy (at_index [report_a] 0) = true) by reflexivity.
  split; [exact Ht|].
  destruct (render (ReportViewer [report_a] 0 ∅)) as [ns|e] eqn:Hv;
    [|vm_compute in Hv; discriminate Hv].
  exists ns. split; [reflexivity|].
  apply (both_controls_disabled_iff_single [report_a] 0 ∅ ns Ht Hv). reflexivity.
Defined.

Lemma non_list_collection_throws_witness :
  truthy (at_index [report_scalar_list] 0) = true
  ∧ not_a_list (field (at_index [report_scalar_list] 0) "ControlNumber") = true
  ∧ render (ReportViewer [report_scalar_list] 0 ∅) = Throw TypeError.
Proof.
  assert (Ht : truthy (at_index [report_scalar_list] 0) = true) by reflexivity.
  assert (Hn : not_a_list (field (at_index [report_scalar_list] 0) "ControlNumber") = true)
    by reflexivity.
  split; [exact Ht|]. split; [exact Hn|].
  apply (non_list_collection_throws [report_scalar_list] 0 ∅ "ControlNumber" 4
           (section_control_numbers ∅) Ht); [|exact Hn].
  do 3 apply list_elem_of_further. apply list_elem_of_here.
Defined.

Lemma null_member_throws_witness :
  truthy (at_index [report_null_member] 0) = true
  ∧ field (at_index [report_null_member] 0) "ServicesProvided" = Arr [Null]
  ∧ render (ReportViewer [report_null_member] 0 ∅) = Throw TypeError.
Proof.
  assert (Ht : truthy (at_index [report_null_member] 0) = true) by reflexivity.
  assert (Hf : field (at_index [report_null_member] 0) "ServicesProvided" = Arr [Null])
    by reflexivity.
  split; [exact Ht|]. split; [exact Hf|].
  apply (null_member_throws [report_null_member] 0 ∅ "ServicesProvided" [Null] Ht);
    [apply list_elem_of_here | exact Hf | reflexivity].
Defined.

Lemma page_failures_witness :
  let σ : store := {[4 := true]} in
  truthy (at_index [report_object_child] 0) = true
  ∧ is_ok (ReportViewer [report_object_child] 0 σ) = true
  ∧ render (ReportViewer [report_object_child] 0 σ) = Throw InvalidChild.
Proof.
  intros σ.
  assert (Ht : truthy (at_index [report_object_child] 0) = true) by reflexivity.
  split; [exact Ht|].
  destruct (ReportViewer [report_object_child] 0 σ) as [page|] eqn:Hpage;
    [|vm_compute in Hpage; discriminate Hpage].
  split; [reflexivity|].
  destruct (section_control_numbers σ (at_index [report_object_child] 0)) as [e|] eqn:He;
    [|vm_compute in He; discriminate He].
  assert (Hbad : is_ok (e None) = false).
  { vm_compute in He. injection He as <-. vm_compute. reflexivity. }
  destruct (page_failures [report_object_child] 0 σ) as (_ & H).
  rewrite <- Hpage at 1.
  apply (H (section_control_numbers σ) e page Ht Hpage); [|exact He|exact Hbad].
  do 4 apply list_elem_of_further. apply list_elem_of_here.
Defined.

Lemma closed_sections_are_not_rendered_witness :
  eager_ok report_object_child = true
  ∧ well_shaped report_object_child = false
  ∧ is_ok (view (step mount (FetchResolved [report_object_child]))) = true.
Proof.
  assert (He : eager_ok report_object_child = true) by reflexivity.
  split; [exact He|]. split; [reflexivity|].
  destruct (closed_sections_are_not_rendered report_object_child [] He) as (_ & H).
  exact H.
Defined.

Lemma object_member_rejected_when_open_witness :
  let σ : store := {[4 := true]} in
  get report_object_child "ControlNumber" = Ok (Arr [Obj [("id", Str "C1")]])
  ∧ forallb renderable [Obj [("id", Str "C1")]] = false
  ∧ render (section_control_numbers σ report_object_child) = Throw InvalidChild
  ∧ render (section_control_numbers ∅ report_object_child) =
      Ok [Elem "div" false None [trigger_node 4 [Text "Control Numbers"] "+"]].
Proof.
  intros σ.
  assert (Hg : get report_object_child "ControlNumber" = Ok (Arr [Obj [("id", Str "C1")]]))
    by reflexivity.
  assert (Hbad : forallb renderable [Obj [("id", Str "C1")]] = false) by reflexivity.
  split; [exact Hg|]. split; [exact Hbad|]. split.
  - rewrite (object_member_rejected_when_open σ report_object_child
               [Obj [("id", Str "C1")]] "ControlNumber" 4 "Control Numbers" true (section_control_numbers σ));
      [reflexivity | do 2 apply list_elem_of_further; apply list_elem_of_here
       | exact Hg | exact Hbad].
  - rewrite (object_member_rejected_when_open ∅ report_object_child
               [Obj [("id", Str "C1")]] "ControlNumber" 4 "Control Numbers" true (section_control_numbers ∅));
      [reflexivity | do 2 apply list_elem_of_further; apply list_elem_of_here
       | exact Hg | exact Hbad].
Defined.

Lemma text_members_listed_in_order_witness :
  let σ : store := {[4 := true]} in
  get report_a "ControlNumber" = Ok (Arr (Str <$> ["C1"; "C2"]))
  ∧ item_open σ 4 = true
  ∧ render (section_control_numbers σ report_a) =
      Ok [Elem "div" false None
            [ trigger_node 4 [Text "Control Numbers"] "−";
              Elem "div" false None
                [Elem "ul" false None [strong_item "C1"; strong_item "C2"]] ]].
Proof.
  intros σ.
  assert (Hg : get report_a "ControlNumber" = Ok (Arr (Str <$> ["C1"; "C2"])))
    by reflexivity.
  assert (Ho : item_open σ 4 = true) by reflexivity.
  split; [exact Hg|]. split; [exact Ho|].
  apply (text_members_listed_in_order σ report_a ["C1"; "C2"]
           "ControlNumber" 4 "Control Numbers" true (section_control_numbers σ));
    [do 2 apply list_elem_of_further; apply list_elem_of_here | exact Hg | exact Ho].
Defined.

Lemma pair_members_listed_in_order_witness :
  let σ : store := {[3 := true]} in
  get report_b "ServicesProvided" =
    Ok (Arr (pair_object "service" "description" <$> [("Hosting", "Managed hosting")]))
  ∧ item_open σ 3 = true
  ∧ render (section_services σ report_b) =
      Ok [Elem "div" false None
            [ trigger_node 3 [Text "Services Provided"] "−";
              Elem "div" false None
                [Elem "ul" false None [pair_item ("Hosting", "Managed hosting")]] ]].
Proof.
  intros σ.
  assert (Hg : get report_b "ServicesProvided" =
    Ok (Arr (pair_object "service" "description" <$> [("Hosting", "Managed hosting")])))
    by reflexivity.
  assert (Ho : item_open σ 3 = true) by reflexivity.
  split; [exact Hg|]. split; [exact Ho|].
  apply (pair_members_listed_in_order σ report_b [("Hosting", "Managed hosting")]
           "ServicesProvided" 3 "Services Provided" "service" "description"
           (section_services σ));
    [apply list_elem_of_here | exact Hg | exact Ho].
Defined.

Lemma one_item_per_member_witness :
  let σ : store := {[4 := true]} in
  get report_a "ControlNumber" = Ok (Arr [Str "C1"; Str "C2"])
  ∧ ∃ ns, render (section_control_numbers σ report_a) = Ok ns
          ∧ count_tags "li" ns = 2.
Proof.
  intros σ.
  assert (Hg : get report_a "ControlNumber" = Ok (Arr [Str "C1"; Str "C2"]))
    by reflexivity.
  split; [exact Hg|].
  destruct (render (section_control_numbers σ report_a)) as [ns|] eqn:Hr;
    [|vm_compute in Hr; discriminate Hr].
  exists ns. split; [reflexivity|].
  rewrite (one_item_per_member σ report_a [Str "C1"; Str "C2"] "ControlNumber" 4
             (section_control_numbers σ) ns); [reflexivity | | exact Hg | exact Hr].
  do 3 apply list_elem_of_further. apply list_elem_of_here.
Defined.

Lemma section_depends_on_its_field_witness :
  let r2 := Obj [("file_name", Str "G.pdf"); ("ThirdPartyServiceProvider", Arr [])] in
  get report_c "ThirdPartyServiceProvider" = Ok Undefined
  ∧ get r2 "ThirdPartyServiceProvider" = Ok (Arr [])
  ∧ render (section_ThirdPartyServiceProvider ∅ report_c) =
    render (section_ThirdPartyServiceProvider ∅ r2).
Proof.
  intros r2.
  assert (H1 : get report_c "ThirdPartyServiceProvider" = Ok Undefined) by reflexivity.
  assert (H2 : get r2 "ThirdPartyServiceProvider" = Ok (Arr [])) by reflexivity.
  split; [exact H1|]. split; [exact H2|].
  destruct (section_depends_on_its_field ∅ report_c r2 Undefined (Arr [])
              "ThirdPartyServiceProvider" 1 (section_ThirdPartyServiceProvider ∅))
    as (_ & H); [apply list_elem_of_here | exact H1 | exact H2 | | exact H].
  right. split; reflexivity.
Defined.

Lemma sign_matches_content_witness :
  let σ : store := {[0 := true]} in
  AccordionItem σ 0 [AccordionTrigger [text "Title"]; AccordionContent [text "Body"]]
    (Some {| open := false; toggle := Toggle 7 |}) =
    Ok [Elem "div" false None
          [trigger_node 0 [Text "Title"] "−"; Elem "div" false None [Text "Body"]]]
  ∧ AccordionItem σ 0 [AccordionTrigger [text "Title"]; AccordionContent [text "Body"]] None =
    Ok [Elem "div" false None
          [trigger_node 0 [Text "Title"] "−"; Elem "div" false None [Text "Body"]]].
Proof.
  intros σ.
  assert (H : AccordionItem σ 0 [AccordionTrigger [text "Title"]; AccordionContent [text "Body"]]
                (Some {| open := false; toggle := Toggle 7 |}) =
              Ok [Elem "div" false None
                    [trigger_node 0 [Text "Title"] "−"; Elem "div" false None [Text "Body"]]])
    by reflexivity.
  split; [exact H|].
  destruct (sign_matches_content σ 0 [text "Title"] [text "Body"] _ _ H) as (H' & _).
  exact H'.
Defined.

Lemma trigger_binds_to_nearest_item_witness :
  Forall tame [text "Title"] ∧ Forall tame [text "Body"]
  ∧ toggles_only 1
      (AccordionItem ∅ 0
         [AccordionItem ∅ 1 [AccordionTrigger [text "Title"]; AccordionContent [text "Body"]]]).
Proof.
  assert (Hl : Forall tame [text "Title"]).
  { apply Forall_cons; split; [|apply Forall_nil_2].
    intros ctx ns H. injection H as <-. reflexivity. }
  assert (Hb : Forall tame [text "Body"]).
  { apply Forall_cons; split; [|apply Forall_nil_2].
    intros ctx ns H. injection H as <-. reflexivity. }
  split; [exact Hl|]. split; [exact Hb|].
  destruct (trigger_binds_to_nearest_item ∅ 0 1 [text "Title"] [text "Body"] None) as (_ & H).
  exact (H Hl Hb).
Defined.

Lemma cards_are_transparent_witness :
  Forall tame [text "Title"]
  ∧ toggles_only 0 (AccordionItem ∅ 0 [Card [CardContent [AccordionTrigger [text "Title"]]]])
  ∧ Exists (λ c : elem, is_ok (c None) = false) [text "ok"; child (Obj [])]
  ∧ is_ok (Card [text "ok"; child (Obj [])] None) = false.
Proof.
  assert (Hl : Forall tame [text "Title"]).
  { apply Forall_cons; split; [|apply Forall_nil_2].
    intros ctx ns H. injection H as <-. reflexivity. }
  assert (Hex : Exists (λ c : elem, is_ok (c None) = false) [text "ok"; child (Obj [])]).
  { apply Exists_cons_tl. apply Exists_cons_hd. reflexivity. }
  destruct (cards_are_transparent ∅ 0 [text "Title"] [text "ok"; child (Obj [])] None)
    as (H1 & _ & H3).
  destruct (H3 Hex) as (Hcard & _).
  split; [exact Hl|]. split; [exact (H1 Hl)|]. split; [exact Hex|]. exact Hcard.
Defined.

Lemma shell_is_transparent_witness :
  ∃ ns, view loaded_two = Ok ns ∧ screen loaded_two = Ok [Elem "div" false None ns].
Proof.
  destruct (view loaded_two) as [ns|] eqn:Hv; [|vm_compute in Hv; discriminate Hv].
  exists ns. split; [reflexivity|].
  destruct (shell_is_transparent loaded_two) as (H & _).
  apply H. exact Hv.
Defined.

Lemma toggle_parity_witness :
  well_shaped (at_index (reports loaded_two) (index loaded_two)) = true
  ∧ opens loaded_two !! 4 = Some false
  ∧ opens (run loaded_two (replicate 3 (Click (Toggle 4)))) !! 4 = Some true.
Proof.
  assert (Hw : well_shaped (at_index (reports loaded_two) (index loaded_two)) = true)
    by reflexivity.
  assert (Hb : opens loaded_two !! 4 = Some false) by (vm_compute; reflexivity).
  assert (Hk : 4 < 10) by lia.
  split; [exact Hw|]. split; [exact Hb|].
  destruct (toggle_parity loaded_two 4 3 false Hw Hk Hb) as (H & _).
  exact H.
Defined.

Lemma actions_commute_witness :
  forallb well_shaped (reports loaded_two) = true
  ∧ (0 ≤ index loaded_two ≤ Z.of_nat (length (reports loaded_two)) - 1)%Z
  ∧ step (step loaded_two (Click HandleNext)) (Click (Toggle 4))
    = step (step loaded_two (Click (Toggle 4))) (Click HandleNext).
Proof.
  assert (Hall : forallb well_shaped (reports loaded_two) = true) by reflexivity.
  assert (Hi : (0 ≤ index loaded_two ≤ Z.of_nat (length (reports loaded_two)) - 1)%Z)
    by (simpl; lia).
  assert (H2 : 2 < 10) by lia. assert (H4 : 4 < 10) by lia.
  split; [exact Hall|]. split; [exact Hi|].
  destruct (actions_commute loaded_two 2 4 HandleNext Hall Hi H2 H4 (or_intror eq_refl))
    as (_ & H).
  exact H.
Defined.
